(** * collected-node: the item repository and its route layer

    A shallow embedding of [api/dynamo/items.js] (composite keys, the item
    repository over the items table) and of the route table that serves it,
    together with the properties of the specification that concern them.

    JavaScript values are embedded as the type [json]; an object is the list
    of its own properties in enumeration order, and a property whose value
    is [undefined] is represented by its absence.  Strings are sequences of
    code units below 256, numbers are the integers. *)

From Stdlib Require Import ZArith Ascii String List Bool Lia.
From Stdlib Require Import Decimal DecimalString DecimalFacts DecimalPos DecimalZ.
From stdpp Require Import base option list strings gmap.

Local Open Scope string_scope.
Local Open Scope list_scope.
Local Open Scope Z_scope.

(** ** JavaScript values *)

Unset Elimination Schemes.
Inductive json : Type :=
  | JNull
  | JBool (b : bool)
  | JNum (n : Z)
  | JStr (s : string)
  | JArr (l : list json)
  | JObj (m : list (string * json)).
Set Elimination Schemes.

(** Induction over values, with the hypothesis for every element of an
    array and every property of an object. *)
Definition json_ind (P : json -> Prop)
    (Hnull : P JNull) (Hbool : forall b, P (JBool b))
    (Hnum : forall n, P (JNum n)) (Hstr : forall s, P (JStr s))
    (Harr : forall l, Forall P l -> P (JArr l))
    (Hobj : forall m, Forall (fun kv => P (snd kv)) m -> P (JObj m))
  : forall v, P v :=
  fix go (v : json) : P v :=
    match v with
    | JNull => Hnull
    | JBool b => Hbool b
    | JNum n => Hnum n
    | JStr s => Hstr s
    | JArr l =>
        Harr l
          ((fix all (l : list json) : Forall P l :=
              match l with
              | [] => List.Forall_nil P
              | x :: l' => List.Forall_cons P x l' (go x) (all l')
              end) l)
    | JObj m =>
        Hobj m
          ((fix all (m : list (string * json)) : Forall (fun kv => P (snd kv)) m :=
              match m with
              | [] => List.Forall_nil _
              | kv :: m' => List.Forall_cons _ kv m' (go (snd kv)) (all m')
              end) m)
    end.

(** An object, as the list of its properties. *)
Abbreviation obj := (list (string * json)).

Module Obj.

(** [o[k]]; [None] stands for [undefined]. *)
Fixpoint get (o : obj) (k : string) : option json :=
  match o with
  | [] => None
  | (k', v) :: o' => if String.eqb k' k then Some v else get o' k
  end.

(** [o[k] = v]: an existing property keeps its place, a new one goes last. *)
Fixpoint set (o : obj) (k : string) (v : json) : obj :=
  match o with
  | [] => [(k, v)]
  | (k', v') :: o' =>
      if String.eqb k' k then (k', v) :: o' else (k', v') :: set o' k v
  end.

(** [Object.assign(target, source)]: the properties of [source] are
    written to [target] one after the other. *)
Definition assign (target source : obj) : obj :=
  fold_left (fun acc kv => set acc (fst kv) (snd kv)) source target.

Definition keys (o : obj) : list string := map fst o.

(** The object without the property [k]. *)
Definition remove (o : obj) (k : string) : obj :=
  List.filter (fun kv => negb (String.eqb (fst kv) k)) o.

End Obj.

(** Decimal text of an integer, as [String(n)] prints it (a number of 22
    digits or more, which JavaScript prints with an exponent, is beyond
    what the repository meets). *)
Definition decimal (n : Z) : string := NilZero.string_of_int (Z.to_int n).

(** [String(v)], the conversion a template literal applies to its holes. *)
Fixpoint js_toString (v : json) : string :=
  match v with
  | JNull => "null"
  | JBool true => "true"
  | JBool false => "false"
  | JNum n => decimal n
  | JStr s => s
  | JArr l =>
      (fix join (l : list json) : string :=
         match l with
         | [] => EmptyString
         | x :: l' =>
             let e := match x with JNull => EmptyString | _ => js_toString x end in
             match l' with
             | [] => e
             | _ :: _ => e +:+ "," +:+ join l'
             end
         end) l
  | JObj _ => "[object Object]"
  end.

(** A hole of a template literal; a property that is not there is
    [undefined]. *)
Definition template (v : option json) : string :=
  match v with
  | Some v => js_toString v
  | None => "undefined"
  end.

(** ** Ramda helpers used by the repository *)

(** [R.split(sep)] for a separator of one character. *)
Fixpoint R_split (sep : ascii) (s : string) : list string :=
  match s with
  | EmptyString => [EmptyString]
  | String c s' =>
      if Ascii.eqb c sep then EmptyString :: R_split sep s'
      else match R_split sep s' with
           | [] => [String c EmptyString]
           | h :: t => String c h :: t
           end
  end.

(** [R.last]: the last element, [undefined] on the empty list. *)
Fixpoint R_last {A} (l : list A) : option A :=
  match l with
  | [] => None
  | [x] => Some x
  | _ :: l' => R_last l'
  end.

(** ** Composite keys (items.js, lines 13-32) *)

Definition types : list (string * string) :=
  [ ("collection", "collection");
    ("record", "record");
    ("picture", "picture");
    ("story", "story");
    ("screen", "story-screen");
    ("message", "story-message");
    ("promotion", "story-promotion");
    ("component", "component") ].

Definition uniqueIDForTypeAndID (type : string) (id : json) : string :=
  type +:+ "-" +:+ js_toString id.

Record Owner := { owner_type : string; owner_id : string }.

Definition uniqueIDForOwner (owner : Owner) : string :=
  uniqueIDForTypeAndID (owner_type owner) (JStr (owner_id owner)).

Definition formatID (s : string) : option string :=
  R_last (R_split "-" s).

(** The characters of a string. *)
Fixpoint chars (s : string) : list ascii :=
  match s with
  | EmptyString => []
  | String c s' => c :: chars s'
  end.

(** ** [JSON.stringify] and [JSON.parse]

    The text is produced in front of a continuation [k], so that the text of
    a value inside an array or an object is followed by what comes after
    it. *)

Module JSON.

(** The double quote, character 34. *)
Abbreviation dquote := (Ascii false true false false false true false false).

Definition hex_digit (n : N) : ascii :=
  ascii_of_N (if (n <? 10)%N then 48 + n else 87 + n).

(** The text of one character inside a string literal. *)
Definition escape_char (c : ascii) (k : string) : string :=
  let n := N_of_ascii c in
  if (n =? 34)%N then String "\" (String dquote k)
  else if (n =? 92)%N then String "\" (String "\" k)
  else if (n =? 8)%N then String "\" (String "b" k)
  else if (n =? 9)%N then String "\" (String "t" k)
  else if (n =? 10)%N then String "\" (String "n" k)
  else if (n =? 12)%N then String "\" (String "f" k)
  else if (n =? 13)%N then String "\" (String "r" k)
  else if (n <? 32)%N then
    String "\" (String "u" (String "0" (String "0"
      (String (hex_digit (n / 16)) (String (hex_digit (n mod 16)) k)))))
  else String c k.

Fixpoint escape_to (s : string) (k : string) : string :=
  match s with
  | EmptyString => k
  | String c s' => escape_char c (escape_to s' k)
  end.

Definition quote_to (s : string) (k : string) : string :=
  String dquote (escape_to s (String dquote k)).

Section Sequences.
Variable print : json -> string -> string.

(** The elements of an array, with commas in between. *)
Fixpoint elements_to (l : list json) (k : string) : string :=
  match l with
  | [] => k
  | x :: l' =>
      print x
        match l' with
        | [] => elements_to l' k
        | _ :: _ => String "," (elements_to l' k)
        end
  end.

(** The members of an object, with commas in between. *)
Fixpoint members_to (m : obj) (k : string) : string :=
  match m with
  | [] => k
  | (key, x) :: m' =>
      quote_to key (String ":"
        (print x
           match m' with
           | [] => members_to m' k
           | _ :: _ => String "," (members_to m' k)
           end))
  end.
End Sequences.

Fixpoint stringify_to (v : json) (k : string) : string :=
  match v with
  | JNull => "null" +:+ k
  | JBool true => "true" +:+ k
  | JBool false => "false" +:+ k
  | JNum n => decimal n +:+ k
  | JStr s => quote_to s k
  | JArr l => String "[" (elements_to stringify_to l (String "]" k))
  | JObj m => String "{" (members_to stringify_to m (String "}" k))
  end.

Definition stringify (v : json) : string := stringify_to v EmptyString.

(** *** Parsing *)

Definition is_ws (c : ascii) : bool :=
  let n := N_of_ascii c in
  ((n =? 32) || (n =? 9) || (n =? 10) || (n =? 13))%N.

Fixpoint skip_ws (s : string) : string :=
  match s with
  | String c s' => if is_ws c then skip_ws s' else s
  | EmptyString => s
  end.

Definition hex_value (c : ascii) : option N :=
  let n := N_of_ascii c in
  if ((48 <=? n) && (n <=? 57))%N then Some (n - 48)%N
  else if ((97 <=? n) && (n <=? 102))%N then Some (n - 87)%N
  else if ((65 <=? n) && (n <=? 70))%N then Some (n - 55)%N
  else None.

(** The character written [\uh1h2h3h4]; code units from 256 on have no
    counterpart in the strings of this development. *)
Definition unicode_escape (h1 h2 h3 h4 : ascii) : option ascii :=
  match hex_value h1, hex_value h2, hex_value h3, hex_value h4 with
  | Some a, Some b, Some c, Some d =>
      let n := (((a * 16 + b) * 16 + c) * 16 + d)%N in
      if (n <? 256)%N then Some (ascii_of_N n) else None
  | _, _, _, _ => None
  end.

Definition simple_escape (e : ascii) : option ascii :=
  let n := N_of_ascii e in
  if (n =? 34)%N then Some e
  else if (n =? 92)%N then Some e
  else if (n =? 47)%N then Some e
  else if (n =? 98)%N then Some (ascii_of_N 8)
  else if (n =? 102)%N then Some (ascii_of_N 12)
  else if (n =? 110)%N then Some (ascii_of_N 10)
  else if (n =? 114)%N then Some (ascii_of_N 13)
  else if (n =? 116)%N then Some (ascii_of_N 9)
  else None.

Definition cons_char (c : ascii) (r : option (string * string))
  : option (string * string) :=
  match r with
  | Some (s, k) => Some (String c s, k)
  | None => None
  end.

(** The rest of a string literal, after its opening quote: the string and
    what follows the closing quote. *)
Fixpoint read_string (s : string) : option (string * string) :=
  match s with
  | EmptyString => None
  | String c s' =>
      if (N_of_ascii c =? 34)%N then Some (EmptyString, s')
      else if (N_of_ascii c =? 92)%N then
        match s' with
        | String e s'' =>
            if (N_of_ascii e =? 117)%N then
              match s'' with
              | String h1 (String h2 (String h3 (String h4 s3))) =>
                  match unicode_escape h1 h2 h3 h4 with
                  | Some u => cons_char u (read_string s3)
                  | None => None
                  end
              | _ => None
              end
            else
              match simple_escape e with
              | Some u => cons_char u (read_string s'')
              | None => None
              end
        | EmptyString => None
        end
      else if (N_of_ascii c <? 32)%N then None
      else cons_char c (read_string s')
  end.

Definition digit_of (c : ascii) : option (uint -> uint) :=
  let n := N_of_ascii c in
  if (n =? 48)%N then Some D0 else if (n =? 49)%N then Some D1
  else if (n =? 50)%N then Some D2 else if (n =? 51)%N then Some D3
  else if (n =? 52)%N then Some D4 else if (n =? 53)%N then Some D5
  else if (n =? 54)%N then Some D6 else if (n =? 55)%N then Some D7
  else if (n =? 56)%N then Some D8 else if (n =? 57)%N then Some D9
  else None.

(** The longest prefix of digits, and what follows it. *)
Fixpoint read_digits (s : string) : uint * string :=
  match s with
  | String c s' =>
      match digit_of c with
      | Some d => let (u, k) := read_digits s' in (d u, k)
      | None => (Nil, s)
      end
  | EmptyString => (Nil, s)
  end.

(** The text after an integer: a fraction or an exponent would make the
    number one that this development does not represent. *)
Definition number_end (k : string) : bool :=
  match k with
  | String c _ =>
      let n := N_of_ascii c in
      negb ((n =? 46) || (n =? 101) || (n =? 69))%N
  | EmptyString => true
  end.

(** Digits without a superfluous leading zero. *)
Definition json_int (u : uint) : bool :=
  match u with
  | Nil => false
  | D0 Nil => true
  | D0 _ => false
  | _ => true
  end.

Definition read_number (s : string) : option (Z * string) :=
  match s with
  | String c s' =>
      if (N_of_ascii c =? 45)%N then
        let (u, k) := read_digits s' in
        if json_int u && number_end k then Some (Z.of_int (Neg u), k) else None
      else
        let (u, k) := read_digits s in
        if json_int u && number_end k then Some (Z.of_int (Pos u), k) else None
  | EmptyString => None
  end.

Definition parser (A : Type) := string -> option (A * string).

(** What follows the character [c], if the text starts with it after
    white space. *)
Definition closing (c : ascii) (s : string) : option string :=
  match skip_ws s with
  | String c' k => if Ascii.eqb c' c then Some k else None
  | EmptyString => None
  end.

(** [x, y, z]] after the opening bracket of a non-empty array. *)
Fixpoint parse_elements (value : parser json) (fuel : nat) (s : string)
  : option (list json * string) :=
  match fuel with
  | O => None
  | S fuel' =>
      match value s with
      | Some (x, k) =>
          match skip_ws k with
          | String "," k' =>
              match parse_elements value fuel' k' with
              | Some (l, k'') => Some (x :: l, k'')
              | None => None
              end
          | String "]" k' => Some ([x], k')
          | _ => None
          end
      | None => None
      end
  end.

(** ["k": x, ...}] after the opening brace of a non-empty object; a key
    that occurs again overwrites the value read before. *)
Fixpoint parse_members (value : parser json) (fuel : nat) (acc : obj)
    (s : string) : option (obj * string) :=
  match fuel with
  | O => None
  | S fuel' =>
      match skip_ws s with
      | String dquote k0 =>
          match read_string k0 with
          | Some (key, k1) =>
              match skip_ws k1 with
              | String ":" k2 =>
                  match value k2 with
                  | Some (x, k3) =>
                      match skip_ws k3 with
                      | String "," k4 =>
                          parse_members value fuel' (Obj.set acc key x) k4
                      | String "}" k4 => Some (Obj.set acc key x, k4)
                      | _ => None
                      end
                  | None => None
                  end
              | _ => None
              end
          | None => None
          end
      | _ => None
      end
  end.

Fixpoint parse_value (fuel : nat) (s : string) : option (json * string) :=
  match fuel with
  | O => None
  | S fuel' =>
      match skip_ws s with
      | String "n" (String "u" (String "l" (String "l" k))) => Some (JNull, k)
      | String "t" (String "r" (String "u" (String "e" k))) =>
          Some (JBool true, k)
      | String "f" (String "a" (String "l" (String "s" (String "e" k)))) =>
          Some (JBool false, k)
      | String dquote k =>
          match read_string k with
          | Some (str, k') => Some (JStr str, k')
          | None => None
          end
      | String "[" k =>
          match closing "]" k with
          | Some k' => Some (JArr [], k')
          | None =>
              match parse_elements (parse_value fuel') fuel' k with
              | Some (l, k') => Some (JArr l, k')
              | None => None
              end
          end
      | String "{" k =>
          match closing "}" k with
          | Some k' => Some (JObj [], k')
          | None =>
              match parse_members (parse_value fuel') fuel' [] k with
              | Some (m, k') => Some (JObj m, k')
              | None => None
              end
          end
      | s' =>
          match read_number s' with
          | Some (n, k) => Some (JNum n, k)
          | None => None
          end
      end
  end.

(** [JSON.parse]; [None] is the [SyntaxError].  No value spans more
    characters than the text has, which bounds the recursion.  The numbers
    of this development are the integers and its characters the code units
    below 256: text with a fraction, an exponent or a [\u] escape from
    [0100] on, which JavaScript reads, has no value here and gets [None]
    as well.  The theorems that conclude a [SyntaxError] therefore do so
    only of text that is no JSON text to JavaScript either. *)
Definition parse (s : string) : option json :=
  match parse_value (S (String.length s)) s with
  | Some (v, k) =>
      match skip_ws k with
      | EmptyString => Some v
      | _ => None
      end
  | None => None
  end.

End JSON.

(** Text after which a number ends: no digit, fraction or exponent. *)
Definition delimiter (k : string) : bool :=
  match k with
  | String c _ =>
      match JSON.digit_of c with
      | Some _ => false
      | None => JSON.number_end k
      end
  | EmptyString => true
  end.

(** For examples: the text with every apostrophe turned into a double
    quote. *)
Fixpoint dq (s : string) : string :=
  match s with
  | EmptyString => EmptyString
  | String c s' => String (if Ascii.eqb c "'" then JSON.dquote else c) (dq s')
  end.

(** That [value] reads back the text of [x], whatever delimiter follows. *)
Definition reads (value : JSON.parser json) (x : json) : Prop :=
  forall k, delimiter k = true -> value (JSON.stringify_to x k) = Some (x, k).

(** The values that are values of JavaScript: no object has two properties
    of one name. *)
Fixpoint json_wf (v : json) : bool :=
  match v with
  | JArr l => forallb json_wf l
  | JObj m =>
      bool_decide (NoDup (map fst m))
      && forallb (fun kv => let '(_, x) := kv in json_wf x) m
  | _ => true
  end.

(** The number of values in a value. *)
Fixpoint weight (v : json) : nat :=
  match v with
  | JArr l => S (list_sum (map weight l))
  | JObj m => S (list_sum (map (fun kv => let '(_, x) := kv in weight x) m))
  | _ => 1
  end.

(** ** The store and the promises over it

    The managed store is a black box to the repository: the items table maps
    a key, the pair of the [ownerID] and [id] attributes, to a record.  Every
    request made to it is logged in [calls], the latest first. *)

Inductive Error : Type :=
  | SyntaxError                         (* JSON.parse on text that is not JSON *)
  | TypeError                           (* a method or property of a value that has none *)
  | ValidationException                 (* the store refuses the request *)
  | ValidationError                     (* the request fails the schema of the route *)
  | Boom (status : nat) (message : string).

Inductive Call : Type :=
  | CallIncrementID (type : string)
  | CallQuery (ownerID : string) (type : option string)
  | CallGetItem (key : string * string)
  | CallPutItem (item : obj)
  | CallUpdateItem (key : string * string) (sets : obj).

Record Store := {
  counters : gmap string N;
  items : gmap (string * string) obj;
  calls : list Call
}.

Inductive Result (A : Type) : Type :=
  | Ok (a : A)
  | Fail (e : Error).
Arguments Ok {A} a.
Arguments Fail {A} e.

(** A promise: run against the store it resolves or rejects, and leaves the
    store as its requests made it. *)
Definition Promise (A : Type) : Type := Store -> Result A * Store.

Definition resolve {A} (a : A) : Promise A := fun st => (Ok a, st).
Definition reject {A} (e : Error) : Promise A := fun st => (Fail e, st).

(** [r.map(f)] on a result *)
Definition Result_map {A B} (f : A -> B) (r : Result A) : Result B :=
  match r with
  | Ok a => Ok (f a)
  | Fail e => Fail e
  end.

(** [p.then(f)] *)
Definition and_then {A B} (p : Promise A) (f : A -> Promise B) : Promise B :=
  fun st =>
    match p st with
    | (Ok a, st') => f a st'
    | (Fail e, st') => (Fail e, st')
    end.

(** [p.map(f)], with an [f] that may throw *)
Definition map_result {A B} (f : A -> Result B) (p : Promise A) : Promise B :=
  and_then p (fun a st => (f a, st)).

(** [p.catch(f)] *)
Definition catch {A} (p : Promise A) (f : Error -> Promise A) : Promise A :=
  fun st =>
    match p st with
    | (Ok a, st') => (Ok a, st')
    | (Fail e, st') => f e st'
    end.

Notation "'let*' x := p 'in' f" := (and_then p (fun x => f))
  (at level 10, x pattern, p at level 100, f at level 200, only parsing).

Definition log (c : Call) (st : Store) : Store :=
  {| counters := counters st; items := items st; calls := c :: calls st |}.

(** *** Requests to the items table *)

(** The key of a record: its [ownerID] and [id] attributes. *)
Definition key_of (item : obj) : option (string * string) :=
  match Obj.get item "ownerID", Obj.get item "id" with
  | Some (JStr o), Some (JStr i) => Some (o, i)
  | _, _ => None
  end.

Definition key_item (key : string * string) : obj :=
  [("ownerID", JStr key.1); ("id", JStr key.2)].

(** [query]: the records of one partition, in the order the store lists
    them; with [type] given, the records of the [Type] index whose [type]
    attribute is that string.  The page the store answers with is taken to
    hold them all. *)
Definition in_query (ownerID : string) (type : option string)
    (entry : (string * string) * obj) : bool :=
  String.eqb entry.1.1 ownerID &&
  match type with
  | None => true
  | Some t =>
      match Obj.get entry.2 "type" with
      | Some (JStr t') => String.eqb t' t
      | _ => false
      end
  end.

Definition query (ownerID : string) (type : option string) : Promise (list obj) :=
  fun st =>
    (Ok (map snd (List.filter (in_query ownerID type) (map_to_list (items st)))),
     log (CallQuery ownerID type) st).

(** [getItem]: the record under the key, if there is one. *)
Definition getItem (key : string * string) : Promise (option obj) :=
  fun st => (Ok (items st !! key), log (CallGetItem key) st).

(** [putItem]: the record replaces whatever its key held. *)
Definition putItem (item : obj) : Promise unit :=
  fun st =>
    match key_of item with
    | Some key =>
        (Ok tt,
         log (CallPutItem item)
           {| counters := counters st;
              items := <[key := item]> (items st);
              calls := calls st |})
    | None => (Fail ValidationException, log (CallPutItem item) st)
    end.

Definition is_key_attribute (k : string) : bool :=
  String.eqb k "ownerID" || String.eqb k "id".

(** [updateItem] with an update expression [SET k1 = v1, k2 = v2, ...], no
    condition expression and [ReturnValues: 'ALL_NEW']: the attributes are
    written to the record under the key, or to a new record of that key when
    there is none, and the record as written is returned.  The store refuses
    an empty expression and one that writes a key attribute. *)
Definition updateItem (key : string * string) (sets : obj) : Promise obj :=
  fun st =>
    if bool_decide (sets = []) || existsb is_key_attribute (Obj.keys sets) then
      (Fail ValidationException, log (CallUpdateItem key sets) st)
    else
      let item := Obj.assign (default (key_item key) (items st !! key)) sets in
      (Ok item,
       log (CallUpdateItem key sets)
         {| counters := counters st;
            items := <[key := item]> (items st);
            calls := calls st |}).

(** Modelled from the spec: [incrementIDForType] of [./ids], which is not
    among the sources.  It "atomically increments and returns the new
    counter value for the given item type"; the counter of a type that has
    issued no ID is 0, so that the first ID is 1. *)
Definition incrementIDForType (type : string) : Promise N :=
  fun st =>
    let counter := (default 0 (counters st !! type) + 1)%N in
    (Ok counter,
     log (CallIncrementID type)
       {| counters := <[type := counter]> (counters st);
          items := items st;
          calls := calls st |}).

(** The update expression that [dynamodbUpdateExpression.getUpdateExpression]
    derives from the original [{}] and a changeset: every property of the
    changeset is new, and is set as a whole. *)
Definition getUpdateExpression (changes : obj) : obj := changes.

(** ** The item repository (items.js, lines 33-178) *)

(** Whether a value counts as true in a condition. *)
Definition truthy (v : option json) : bool :=
  match v with
  | None | Some JNull => false
  | Some (JBool b) => b
  | Some (JNum n) => negb (n =? 0)
  | Some (JStr s) => negb (String.eqb s EmptyString)
  | Some (JArr _) | Some (JObj _) => true
  end.

(** [formatID(item.id)]; [R.split] throws on what is not a string. *)
Definition formatted_id (item : obj) : Result (option string) :=
  match Obj.get item "id" with
  | Some (JStr s) => Ok (formatID s)
  | _ => Fail TypeError
  end.

(** [Object.assign(o, {id})], where [id] may be [undefined]. *)
Definition assign_id (o : obj) (id : option string) : obj :=
  match id with
  | Some i => Obj.set o "id" (JStr i)
  | None => Obj.remove o "id"
  end.

(** [item.contentJSON && {contentJSON: R.is(String, item.contentJSON) ?
    JSON.parse(item.contentJSON) : item.contentJSON}]; a false operand has
    no property to assign. *)
Definition parsed_content (item : obj) : Result obj :=
  if truthy (Obj.get item "contentJSON") then
    match Obj.get item "contentJSON" with
    | Some (JStr s) =>
        match JSON.parse s with
        | Some v => Ok [("contentJSON", v)]
        | None => Fail SyntaxError
        end
    | Some v => Ok [("contentJSON", v)]
    | None => Ok []
    end
  else Ok [].

Definition formatItem (item : obj) : Result obj :=
  match formatted_id item with
  | Ok id =>
      match parsed_content item with
      | Ok content => Ok (Obj.assign (assign_id (Obj.assign [] item) id) content)
      | Fail e => Fail e
      end
  | Fail e => Fail e
  end.

(** [items.map(formatItem)] *)
Fixpoint formatItems (l : list obj) : Result (list obj) :=
  match l with
  | [] => Ok []
  | item :: l' =>
      match formatItem item with
      | Ok item' =>
          match formatItems l' with
          | Ok l'' => Ok (item' :: l'')
          | Fail e => Fail e
          end
      | Fail e => Fail e
      end
  end.

Definition readAllItemsForOwner (owner : Owner) : Promise (list obj) :=
  map_result formatItems (query (uniqueIDForOwner owner) None).

Definition readAllItemsForType (owner : Owner) (type : string) : Promise (list obj) :=
  map_result formatItems (query (uniqueIDForOwner owner) (Some type)).

(** [R.unless(R.isNil, formatItem)] on the [Item] of the answer *)
Definition readItem (owner : Owner) (type : string) (id : json)
  : Promise (option obj) :=
  map_result
    (fun item =>
       match item with
       | None => Ok None
       | Some item =>
           match formatItem item with
           | Ok item' => Ok (Some item')
           | Fail e => Fail e
           end
       end)
    (getItem (uniqueIDForOwner owner, uniqueIDForTypeAndID type id)).

(** [tags] and [name] may be left out, which the defaults of the parameter
    list make [[]] and ['Untitled']. *)
Definition createItem (owner : Owner) (type : string) (tags name : option json)
    (contentJSON : json) : Promise obj :=
  let* counter := incrementIDForType type in
  let id := JNum (Z.of_N counter) in
  let* _ :=
    putItem
      [ ("ownerID", JStr (uniqueIDForOwner owner));
        ("id", JStr (uniqueIDForTypeAndID type id));
        ("type", JStr type);
        ("tags", default (JArr []) tags);
        ("name", default (JStr "Untitled") name);
        ("contentJSON", JStr (JSON.stringify contentJSON)) ] in
  resolve [("type", JStr type); ("id", id)].

Definition updateNameForItem (owner : Owner) (type : string) (id : json)
    (newName : json) : Promise obj :=
  updateItem (uniqueIDForOwner owner, uniqueIDForTypeAndID type id)
    [("name", newName)].

Definition updateTagsForItem (owner : Owner) (type : string) (id : json)
    (newTags : json) : Promise obj :=
  updateItem (uniqueIDForOwner owner, uniqueIDForTypeAndID type id)
    [("tags", newTags)].

Definition updateItemWithChanges (owner : Owner) (type : string) (id : json)
    (changes : obj) : Promise obj :=
  updateItem (uniqueIDForOwner owner, uniqueIDForTypeAndID type id)
    (getUpdateExpression changes).

(** The record that [createItem] writes. *)
Definition created_item (owner : Owner) (type : string) (tags name : option json)
    (contentJSON : json) (counter : N) : obj :=
  [ ("ownerID", JStr (uniqueIDForOwner owner));
    ("id", JStr (uniqueIDForTypeAndID type (JNum (Z.of_N counter))));
    ("type", JStr type);
    ("tags", match tags with Some t => t | None => JArr [] end);
    ("name", match name with Some n => n | None => JStr "Untitled" end);
    ("contentJSON", JStr (JSON.stringify contentJSON)) ].

Definition next_counter (type : string) (st : Store) : N :=
  (default 0 (counters st !! type) + 1)%N.

(** The key under which the repository keeps the item [(owner, type, id)]. *)
Definition item_key (owner : Owner) (type : string) (id : json) : string * string :=
  (uniqueIDForOwner owner, uniqueIDForTypeAndID type id).

(** The store after [createItem]. *)
Definition store_after_create (owner : Owner) (type : string)
    (tags name : option json) (contentJSON : json) (st : Store) : Store :=
  let counter := next_counter type st in
  let item := created_item owner type tags name contentJSON counter in
  {| counters := <[type := counter]> (counters st);
     items := <[item_key owner type (JNum (Z.of_N counter)) := item]> (items st);
     calls := CallPutItem item :: CallIncrementID type :: calls st |}.

(** The record that [updateItem] writes and returns, and the store after
    it. *)
Definition updated_item (key : string * string) (sets : obj) (st : Store) : obj :=
  Obj.assign (default (key_item key) (items st !! key)) sets.

Definition store_after_update (key : string * string) (sets : obj) (st : Store)
  : Store :=
  {| counters := counters st;
     items := <[key := updated_item key sets st]> (items st);
     calls := CallUpdateItem key sets :: calls st |}.

(** That an update of [item], the record of [(owner, type, id)] in [st],
    with the attributes [sets] came to [out]: one [updateItem] was made; what
    it returned is the [ALL_NEW] attributes, the record with [sets] assigned
    to it, which is what the store then holds; nothing was formatted, so
    that the [id] of the result is the composite key, and a [contentJSON]
    that the record had as a string, and that [sets] does not replace, is
    that string. *)
Definition returns_raw (owner : Owner) (type : string) (id : json)
    (item sets : obj) (st : Store) (out : Result obj * Store) : Prop :=
  let key := item_key owner type id in
  let all_new := Obj.assign item sets in
  out = (Ok all_new,
         {| counters := counters st;
            items := <[key := all_new]> (items st);
            calls := CallUpdateItem key sets :: calls st |}) /\
  Obj.get all_new "id" = Some (JStr (type +:+ "-" +:+ js_toString id)) /\
  (forall s, Obj.get item "contentJSON" = Some (JStr s) ->
             Obj.get sets "contentJSON" = None ->
             Obj.get all_new "contentJSON" = Some (JStr s)).

(** ** The route layer (lines 210-535)

    The module imports [countAllItemsForOwner], [countAllItemsForType] and
    [deleteItem] from [../dynamo/items], which exports none of them: the
    three names are [undefined] and calling one throws a [TypeError]. *)

Inductive Method := GET | POST | PATCH | DELETE.

Record Params := {
  ownerType : string;
  ownerID : string;
  itemType : string;
  id : string
}.

(** A request: the path parameters, the payload as the validation of the
    route leaves it, and the values the preconditions have assigned. *)
Record Request := {
  params : Params;
  payload : option json;
  pre : obj
}.

(** What a handler or precondition does with [reply]. *)
Inductive Reply : Type :=
  | ReplyWith (v : option json)             (* reply(value) *)
  | ReplyCreated (v : json) (location : string) (* reply(v).code(201).location(l) *)
  | ReplyError (e : Error)                  (* reply(error), or a throw *)
  | NoReply.                                (* reply is never called *)

Definition Boom_unauthorized := Boom 401.
Definition Boom_notFound := Boom 404.

(** The owner and the type that the preconditions assigned, as the
    repository reads them.  The preconditions of the route table assign an
    object of two strings and a string; of anything else the handlers make
    the [TypeError] that a property of [undefined] throws. *)
Definition pre_owner (name : string) (req : Request) : Result Owner :=
  match Obj.get (pre req) name with
  | Some (JObj o) =>
      match Obj.get o "type", Obj.get o "id" with
      | Some (JStr t), Some (JStr i) => Ok {| owner_type := t; owner_id := i |}
      | _, _ => Fail TypeError
      end
  | _ => Fail TypeError
  end.

Definition pre_type (req : Request) : Result string :=
  match Obj.get (pre req) "type" with
  | Some (JStr t) => Ok t
  | _ => Fail TypeError
  end.

(** [reply(promise)]: the reply is what the promise settles to. *)
Definition reply_promise {A} (value : A -> option json) (p : Promise A)
  : Promise Reply :=
  fun st =>
    match p st with
    | (Ok a, st') => (Ok (ReplyWith (value a)), st')
    | (Fail e, st') => (Ok (ReplyError e), st')
    end.

Definition with_owner (req : Request) (f : Owner -> Promise Reply) : Promise Reply :=
  match pre_owner "owner" req with
  | Ok owner => f owner
  | Fail e => resolve (ReplyError e)
  end.

Definition with_owner_type (req : Request) (f : Owner -> string -> Promise Reply)
  : Promise Reply :=
  with_owner req (fun owner =>
    match pre_type req with
    | Ok type => f owner type
    | Fail e => resolve (ReplyError e)
    end).

Inductive Handler : Type :=
  | handlers_owner
  | handlers_ensureOwnerExists
  | handlers_authorizedForOwner
  | handlers_itemsForOwner
  | handlers_countItemsForOwner
  | handlers_itemType
  | handlers_itemsForType
  | handlers_countItemsForType
  | handlers_item
  | handler_count             (* reply({ count }) *)
  | handler_post
  | handler_patch
  | handler_delete.

Definition not_found_message (type id : string) : string :=
  "No item with type '" +:+ type +:+ "' and id '" +:+ id +:+ "' found".

(** The handlers.  Those of POST and PATCH run after the validation of
    their route, on a payload that is an object; of any other payload they
    make the [TypeError] of a handler that throws. *)
Definition run_handler (h : Handler) (req : Request) : Promise Reply :=
  match h with
  | handlers_owner =>
      resolve (ReplyWith (Some (JObj
        [ ("type", JStr (ownerType (params req)));
          ("id", JStr (ownerID (params req))) ])))
  | handlers_ensureOwnerExists =>
      with_owner req (fun owner =>
        match pre_owner "user" req with
        | Ok user =>
            reply_promise (fun _ : unit => None)
              (let* ownerItem :=
                 readItem user (owner_type owner) (JStr (owner_id owner)) in
               match ownerItem with
               | Some _ => resolve tt
               | None =>
                   reject (Boom_unauthorized
                     ("Not authorized for item: " +:+ owner_type owner +:+ " "
                        +:+ owner_id owner))
               end)
        | Fail e => resolve (ReplyError e)
        end)
  | handlers_authorizedForOwner =>
      with_owner req (fun owner =>
        if String.eqb (owner_type owner) "organization" then
          if String.eqb (owner_id owner) "1" then
            resolve (ReplyWith (Some (JBool true)))
          else
            resolve (ReplyError (Boom_unauthorized
              ("Not allowed to access organization " +:+ owner_id owner)))
        else resolve NoReply)
  | handlers_itemsForOwner =>
      with_owner req (fun owner =>
        reply_promise (fun l => Some (JArr (map JObj l)))
          (readAllItemsForOwner owner))
  | handlers_countItemsForOwner => resolve (ReplyError TypeError)
  | handlers_itemType =>
      resolve (ReplyWith (Some (JStr (itemType (params req)))))
  | handlers_itemsForType =>
      with_owner_type req (fun owner type =>
        reply_promise (fun l => Some (JArr (map JObj l)))
          (readAllItemsForType owner type))
  | handlers_countItemsForType => resolve (ReplyError TypeError)
  | handlers_item =>
      with_owner_type req (fun owner type =>
        catch
          (let* item := readItem owner type (JStr (id (params req))) in
           match item with
           | Some item => resolve (ReplyWith (Some (JObj item)))
           | None =>
               reject (Boom_notFound (not_found_message type (id (params req))))
           end)
          (fun e => resolve (ReplyError e)))
  | handler_count =>
      resolve (ReplyWith (Some (JObj
        match Obj.get (pre req) "count" with
        | Some count => [("count", count)]
        | None => []
        end)))
  | handler_post =>
      with_owner_type req (fun owner type =>
        match payload req with
        | Some (JObj p) =>
            match Obj.get p "contentJSON" with
            | Some contentJSON =>
                catch
                  (let* item :=
                     createItem owner type (Obj.get p "tags") (Obj.get p "name")
                       contentJSON in
                   resolve (ReplyCreated (JObj item)
                     ("/@" +:+ ownerType (params req) +:+ "/"
                        +:+ ownerID (params req) +:+ "/items/"
                        +:+ template (Obj.get item "type") +:+ "/"
                        +:+ template (Obj.get item "id"))))
                  (fun e => resolve (ReplyError e))
            | None => resolve (ReplyError TypeError)
            end
        | _ => resolve (ReplyError TypeError)
        end)
  | handler_patch =>
      with_owner_type req (fun owner type =>
        match payload req with
        | Some (JObj changes) =>
            reply_promise (fun item => Some (JObj item))
              (updateItemWithChanges owner type (JStr (id (params req))) changes)
        | _ => resolve (ReplyError TypeError)
        end)
  | handler_delete => resolve (ReplyError TypeError)
  end.

(** *** Validation (Joi), as a test of the payload after conversion

    Joi validates with its conversion on: where a schema asks for an
    object, an array or a number and the value is a string, Joi first reads
    the string (as JSON text, as a numeral), and validates and hands on what
    it read.  That conversion is not modelled.  The checks below are the
    rules of the schemas on a value as it stands, and the [payload] of a
    [Request] is the payload as validation leaves it: the payload as it was
    sent when its values have the types of the schema, and the converted
    payload otherwise.  Of a payload with a string in the place of an
    object, an array or a number, as it was sent, the checks say nothing:
    what is proved of a refusal leaves such payloads out. *)

Module Joi.

Definition a_string (v : json) : bool :=
  match v with
  | JStr s => negb (String.eqb s EmptyString)
  | _ => false
  end.

Definition array_of_strings (v : json) : bool :=
  match v with
  | JArr l => forallb a_string l
  | _ => false
  end.

Definition any_object (v : json) : bool :=
  match v with
  | JObj _ => true
  | _ => false
  end.

(** [Joi.number().integer().positive().only(1)] *)
Definition only_1 (v : json) : bool :=
  match v with
  | JNum n => n =? 1
  | _ => false
  end.

(** A key of an object schema: its name, whether it is required, and the
    schema of its value. *)
Definition key := (string * bool * (json -> bool))%type.

Fixpoint schema_of (keys : list key) (k : string) : option (json -> bool) :=
  match keys with
  | [] => None
  | (k', _, check) :: keys' =>
      if String.eqb k' k then Some check else schema_of keys' k
  end.

(** [Joi.object(keys)]: an object, every property of which is a key of
    the schema with a value of its schema, and which has the required
    keys. *)
Definition object (keys : list key) (v : json) : bool :=
  match v with
  | JObj m =>
      forallb (fun kv : string * json =>
                 match schema_of keys kv.1 with
                 | Some check => check kv.2
                 | None => false
                 end) m
      && forallb (fun k : key =>
                    implb k.1.2
                      match Obj.get m k.1.1 with
                      | Some _ => true
                      | None => false
                      end) keys
  | _ => false
  end.

End Joi.

Definition itemValidator : json -> bool :=
  Joi.object
    [ ("contentJSON", true, Joi.any_object);
      ("name", false, Joi.a_string);
      ("tags", false, Joi.array_of_strings) ].

Definition patchValidator : json -> bool :=
  Joi.object
    [ ("version", false, Joi.only_1);
      ("contentJSON", false, Joi.any_object);
      ("name", false, Joi.a_string);
      ("rawTags", false, Joi.a_string);
      ("tags", false, Joi.array_of_strings);
      ("previewDestination", false,
         Joi.object [ ("device", false, Joi.a_string);
                      ("framework", false, Joi.a_string) ]) ].

(** [ownerValidator.keys({itemType: Joi.a_string().required()})] on the path
    parameters of the POST route *)
Definition postParamsValidator (p : Params) : bool :=
  negb (String.eqb (ownerType p) EmptyString)
  && negb (String.eqb (ownerID p) EmptyString)
  && negb (String.eqb (itemType p) EmptyString).

Definition validate_payload (check : json -> bool) (req : Request) : bool :=
  match payload req with
  | Some v => check v
  | None => false
  end.

(** *** The route table *)

(** A precondition: the handler to run and the name under which its reply
    is assigned to [request.pre].  The preconditions of a route come in
    groups, which run one after the other; those of one group are started
    together, which for the groups of this table, whose handlers reply at
    once and read nothing of each other, is to run them in order. *)
Record Pre := { assign : string; method : Handler }.

Record Route := {
  route_method : Method;
  route_path : string;
  route_validate : Request -> bool;
  route_pre : list (list Pre);
  route_handler : Handler
}.

Definition ownerPathPrefix (rest : string) : string :=
  "/1/@{ownerType}/{ownerID}" +:+ rest.

Definition pre_owner_step := {| assign := "owner"; method := handlers_owner |}.
Definition pre_type_step := {| assign := "type"; method := handlers_itemType |}.

Definition no_validation (_ : Request) : bool := true.

(** [GET /1/@{ownerType}/{ownerID}] *)
Definition route_owner : Route :=
  {| route_method := GET; route_path := ownerPathPrefix EmptyString;
     route_validate := no_validation;
     route_pre := [];
     route_handler := handlers_owner |}.

Definition route_items : Route :=
  {| route_method := GET; route_path := ownerPathPrefix "/items";
     route_validate := no_validation;
     route_pre := [[pre_owner_step]];
     route_handler := handlers_itemsForOwner |}.

Definition route_items_count : Route :=
  {| route_method := GET; route_path := ownerPathPrefix "/items/:count";
     route_validate := no_validation;
     route_pre :=
       [ [pre_owner_step];
         [{| assign := "count"; method := handlers_countItemsForOwner |}] ];
     route_handler := handler_count |}.

Definition route_type : Route :=
  {| route_method := GET; route_path := ownerPathPrefix "/items/type:{itemType}";
     route_validate := no_validation;
     route_pre := [[pre_owner_step; pre_type_step]];
     route_handler := handlers_itemsForType |}.

Definition route_type_count : Route :=
  {| route_method := GET;
     route_path := ownerPathPrefix "/items/type:{itemType}:count";
     route_validate := no_validation;
     route_pre :=
       [ [pre_owner_step; pre_type_step];
         [{| assign := "count"; method := handlers_countItemsForType |}] ];
     route_handler := handler_count |}.

Definition route_item : Route :=
  {| route_method := GET;
     route_path := ownerPathPrefix "/items/type:{itemType}/{id}";
     route_validate := no_validation;
     route_pre := [[pre_owner_step; pre_type_step]];
     route_handler := handlers_item |}.

Definition route_post : Route :=
  {| route_method := POST; route_path := ownerPathPrefix "/items/type:{itemType}";
     route_validate := fun req =>
       postParamsValidator (params req) && validate_payload itemValidator req;
     route_pre := [[pre_owner_step; pre_type_step]];
     route_handler := handler_post |}.

Definition route_patch : Route :=
  {| route_method := PATCH;
     route_path := ownerPathPrefix "/items/type:{itemType}/{id}";
     route_validate := validate_payload patchValidator;
     route_pre := [[pre_owner_step; pre_type_step]];
     route_handler := handler_patch |}.

Definition route_delete : Route :=
  {| route_method := DELETE;
     route_path := ownerPathPrefix "/items/type:{itemType}/{id}";
     route_validate := no_validation;
     route_pre := [[pre_owner_step; pre_type_step]];
     route_handler := handler_delete |}.

Definition routes : list Route :=
  [ route_owner; route_items; route_items_count; route_type; route_type_count;
    route_item; route_post; route_patch; route_delete ].

(** Whether a route runs the handler [h] as a precondition. *)
Definition handler_eqb (h1 h2 : Handler) : bool :=
  match h1, h2 with
  | handlers_owner, handlers_owner
  | handlers_ensureOwnerExists, handlers_ensureOwnerExists
  | handlers_authorizedForOwner, handlers_authorizedForOwner
  | handlers_itemsForOwner, handlers_itemsForOwner
  | handlers_countItemsForOwner, handlers_countItemsForOwner
  | handlers_itemType, handlers_itemType
  | handlers_itemsForType, handlers_itemsForType
  | handlers_countItemsForType, handlers_countItemsForType
  | handlers_item, handlers_item
  | handler_count, handler_count
  | handler_post, handler_post
  | handler_patch, handler_patch
  | handler_delete, handler_delete => true
  | _, _ => false
  end.

Definition has_pre (h : Handler) (route : Route) : bool :=
  existsb (fun step => handler_eqb (method step) h) (concat (route_pre route)).

(** *** Serving a request *)

Inductive Outcome : Type :=
  | Response (status : nat) (body : option json) (location : option string)
  | ErrorResponse (e : Error)
  | Pending.   (* no reply: the request is left unanswered *)

(** The status of the response that an error makes. *)
Definition error_status (e : Error) : nat :=
  match e with
  | Boom status _ => status
  | ValidationError => 400%nat
  | SyntaxError | TypeError | ValidationException => 500%nat
  end.

Definition status_of (o : Outcome) : option nat :=
  match o with
  | Response status _ _ => Some status
  | ErrorResponse e => Some (error_status e)
  | Pending => None
  end.

(** The statuses of what the handlers of the table reply: success, a
    validation that failed, an item that is not there, an error that is
    none of Boom's. *)
Definition statuses : list (option nat) :=
  [Some 200; Some 201; Some 400; Some 404; Some 500]%nat.

(** [request.pre[assign] = value] *)
Definition assign_pre (req : Request) (name : string) (v : option json) : Request :=
  {| params := params req;
     payload := payload req;
     pre := match v with
            | Some v => Obj.set (pre req) name v
            | None => Obj.remove (pre req) name
            end |}.

(** The preconditions, one after the other; the first that replies with an
    error, or not at all, settles the request. *)
Fixpoint run_pre (steps : list Pre) (req : Request) : Promise (Request + Outcome) :=
  match steps with
  | [] => resolve (inl req)
  | step :: steps' =>
      let* r := run_handler (method step) req in
      match r with
      | ReplyWith v => run_pre steps' (assign_pre req (assign step) v)
      | ReplyCreated v _ => run_pre steps' (assign_pre req (assign step) (Some v))
      | ReplyError e => resolve (inr (ErrorResponse e))
      | NoReply => resolve (inr Pending)
      end
  end.

Definition outcome_of (r : Reply) : Outcome :=
  match r with
  | ReplyWith v => Response 200 v None
  | ReplyCreated v location => Response 201 (Some v) (Some location)
  | ReplyError e => ErrorResponse e
  | NoReply => Pending
  end.

(** A request that the router matched with [route]: validation, then the
    preconditions, then the handler. *)
Definition serve (route : Route) (req : Request) : Promise Outcome :=
  if route_validate route req then
    let* r := run_pre (concat (route_pre route)) req in
    match r with
    | inl req' =>
        let* reply := run_handler (route_handler route) req' in
        resolve (outcome_of reply)
    | inr outcome => resolve outcome
    end
  else resolve (ErrorResponse ValidationError).

(** A request as it comes in: no precondition has assigned anything. *)
Definition incoming (p : Params) (payload : option json) : Request :=
  {| params := p; payload := payload; pre := [] |}.

(** The owner that the path parameters name. *)
Definition params_owner (p : Params) : Owner :=
  {| owner_type := ownerType p; owner_id := ownerID p |}.

(** The store before anything was written to it. *)
Definition empty_store : Store :=
  {| counters := ∅; items := ∅; calls := [] |}.

(** For examples: the owner and the content of the example of the
    specification, and the store after the item was created. *)
Definition organization_1 : Owner :=
  {| owner_type := "organization"; owner_id := "1" |}.

Definition picture_content : json := JObj [("url", JStr "a.png")].

Definition picture_store : Store :=
  (createItem organization_1 "picture" None None picture_content empty_store).2.

(** The path parameters of [/1/@organization/1/items/type:picture/1], and a
    payload for PATCH. *)
Definition picture_1 : Params :=
  {| ownerType := "organization"; ownerID := "1"; itemType := "picture"; id := "1" |}.

Definition patch_payload : obj :=
  [ ("version", JNum 1);
    ("name", JStr "X");
    ("contentJSON", JObj [("url", JStr "b.png")]);
    ("rawTags", JStr "a b");
    ("previewDestination", JObj [("device", JStr "phone")]) ].

(** The same for the organization 2. *)
Definition organization_2 : Owner :=
  {| owner_type := "organization"; owner_id := "2" |}.

Definition pictures_of_2 : Params :=
  {| ownerType := "organization"; ownerID := "2"; itemType := "picture";
     id := EmptyString |}.

Definition picture_store_2 : Store :=
  (createItem organization_2 "picture" None None picture_content empty_store).2.
(** ** What the further properties speak of *)

(** The records that [query] answers with: those of the partition, and of
    the type when one is given. *)
Definition stored_items (ownerID : string) (type : option string) (st : Store)
  : list obj :=
  map snd (List.filter (in_query ownerID type) (map_to_list (items st))).

(** The record that [createItem] wrote, as [formatItem] returns it. *)
Definition created_item_read (owner : Owner) (type : string)
    (tags name : option json) (contentJSON : json) (counter : N) : obj :=
  [ ("ownerID", JStr (uniqueIDForOwner owner));
    ("id", JStr (decimal (Z.of_N counter)));
    ("type", JStr type);
    ("tags", match tags with Some t => t | None => JArr [] end);
    ("name", match name with Some n => n | None => JStr "Untitled" end);
    ("contentJSON", contentJSON) ].

(** A store with one record, the [contentJSON] of which is no JSON text. *)
Definition broken_item : obj :=
  [ ("ownerID", JStr "organization-1"); ("id", JStr "picture-1");
    ("type", JStr "picture"); ("contentJSON", JStr "{") ].

Definition broken_store : Store :=
  {| counters := ∅;
     items := {[ ("organization-1", "picture-1") := broken_item ]};
     calls := [] |}.




(** ** The preview of screens (ScreensPreview.js, lines 16-18) *)

(** The line feed, character 10. *)
Definition newline : ascii := ascii_of_nat 10.

Definition cons_head (c : ascii) (l : list string) : list string :=
  match l with
  | [] => [String c EmptyString]
  | h :: t => String c h :: t
  end.

(** [s.split('\n\n')]: the pieces between the blank lines, found from the
    left. *)
Fixpoint split_blank_line (s : string) : list string :=
  match s with
  | EmptyString => [EmptyString]
  | String c s' =>
      match s' with
      | String c' s'' =>
          if Ascii.eqb c newline && Ascii.eqb c' newline
          then EmptyString :: split_blank_line s''
          else cons_head c (split_blank_line s')
      | EmptyString => cons_head c (split_blank_line s')
      end
  end.

(** [l.join(sep)] *)
Fixpoint join (sep : string) (l : list string) : string :=
  match l with
  | [] => EmptyString
  | [x] => x
  | x :: l' => x +:+ sep +:+ join sep l'
  end.

(** [l.map(f)], which hands [f] the element, its index and the array. *)
Definition Array_map {A B} (f : A -> nat -> list A -> B) (l : list A) : list B :=
  imap (fun i x => f x i l) l.

(** [parseScreenItem], over the [parseElement] of the library [lofi].
    Reading [body] of a content that has none, or [split] of a body that is
    no string, throws. *)
Definition parseScreenItem {Element}
    (parseElement : string -> nat -> list string -> Element) (item : obj)
  : Result (list (list Element)) :=
  match Obj.get item "contentJSON" with
  | Some (JObj content) =>
      match Obj.get content "body" with
      | Some (JStr body) =>
          Ok (map (fun section => Array_map parseElement (R_split newline section))
                (split_blank_line body))
      | _ => Fail TypeError
      end
  | _ => Fail TypeError
  end.

(** The content of a screen, and the lines of its body. *)
Definition screen_content : json :=
  JObj [("body", JStr (String "a" (String newline (String "b"
          (String newline (String newline (String "c" EmptyString)))))))].

(** The characters with which JSON text can begin: white space, the first
    letter of [null], [true] or [false], a bracket, a brace, a minus sign, a
    digit, or a quote. *)
Definition begins_json (c : ascii) : bool :=
  JSON.is_ws c || existsb (Ascii.eqb c) (chars "ntf[{-0123456789")
  || Ascii.eqb c JSON.dquote.

(** * Properties *)

(** ** Examples *)

Example formatID_screen : formatID "story-screen-12" = Some "12".
Proof. reflexivity. Qed.

Example R_split_screen : R_split "-" "story-screen-12" = ["story"; "screen"; "12"].
Proof. reflexivity. Qed.

Example stringify_object :
  JSON.stringify
    (JObj [("url", JStr "a.png"); ("n", JArr [JNum 1; JNum (-20); JNull; JBool true])])
  = dq "{'url':'a.png','n':[1,-20,null,true]}".
Proof. vm_compute. reflexivity. Qed.

Example stringify_escapes :
  JSON.stringify (JStr (String (ascii_of_nat 7) (String JSON.dquote "a\b")))
  = dq "'\u0007\'a\\b'".
Proof. vm_compute. reflexivity. Qed.

Example parse_object :
  JSON.parse (dq " { 'url' : 'a\nA\u0041', 'n':[1, -20 , null ], 'url': true } ")
  = Some (JObj [("url", JBool true); ("n", JArr [JNum 1; JNum (-20); JNull])]).
Proof. vm_compute. reflexivity. Qed.

Example parse_refuses :
  JSON.parse "[01]" = None /\ JSON.parse "[1,]" = None /\ JSON.parse "tru" = None
  /\ JSON.parse EmptyString = None /\ JSON.parse "1 2" = None.
Proof. vm_compute. auto. Qed.

(** ** Objects *)

Lemma get_set_eq (o : obj) k v : Obj.get (Obj.set o k v) k = Some v.
Proof.
  induction o as [|[k' v'] o IH]; simpl.
  - by rewrite String.eqb_refl.
  - destruct (String.eqb k' k) eqn:E; simpl; rewrite E; auto.
Qed.

Lemma get_set_ne (o : obj) k k' v :
  k <> k' -> Obj.get (Obj.set o k v) k' = Obj.get o k'.
Proof.
  intros Hne. induction o as [|[k0 v0] o IH]; simpl.
  - apply String.eqb_neq in Hne. by rewrite Hne.
  - destruct (String.eqb k0 k) eqn:E; simpl.
    + apply String.eqb_eq in E. subst k0.
      apply String.eqb_neq in Hne. by rewrite Hne.
    + by rewrite IH.
Qed.

Lemma set_fresh (o : obj) k v :
  k ∉ Obj.keys o -> Obj.set o k v = o ++ [(k, v)].
Proof.
  induction o as [|[k' v'] o IH]; simpl; intros Hk; [done|].
  apply not_elem_of_cons in Hk as [Hne Hk].
  assert (String.eqb k' k = false) as -> by (apply String.eqb_neq; congruence).
  by rewrite IH.
Qed.

Lemma assign_fresh (m acc : obj) :
  NoDup (Obj.keys (acc ++ m)) -> Obj.assign acc m = acc ++ m.
Proof.
  unfold Obj.assign, Obj.keys.
  revert acc. induction m as [|[k v] m IH]; intros acc Hnd; simpl.
  - by rewrite app_nil_r.
  - rewrite set_fresh.
    + rewrite IH; rewrite <- app_assoc; done.
    + rewrite fmap_app in Hnd. apply NoDup_app in Hnd as (_ & Hd & _).
      intros Hin. apply (Hd k Hin). simpl. left.
Qed.

Lemma assign_empty (m : obj) : NoDup (Obj.keys m) -> Obj.assign [] m = m.
Proof. intros. by apply (assign_fresh m []). Qed.

(** ** Strings and numbers in JSON text *)

Lemma read_escape_char c k :
  JSON.read_string (JSON.escape_char c k) = JSON.cons_char c (JSON.read_string k).
Proof. destruct c as [[] [] [] [] [] [] [] []]; reflexivity. Qed.

Lemma read_string_escape s k :
  JSON.read_string (JSON.escape_to s (String JSON.dquote k)) = Some (s, k).
Proof.
  induction s as [|c s IH]; simpl.
  - reflexivity.
  - by rewrite read_escape_char, IH.
Qed.

Lemma read_digits_uint d k :
  delimiter k = true ->
  JSON.read_digits (NilEmpty.string_of_uint d +:+ k) = (d, k).
Proof.
  intros Hk. induction d; simpl; try (by rewrite IHd).
  destruct k as [|c k]; [done|]. simpl in *.
  by destruct (JSON.digit_of c).
Qed.

Lemma nzhead_not_D0 d d' : nzhead d <> D0 d'.
Proof. induction d; simpl; congruence. Qed.

Lemma json_int_to_uint p : JSON.json_int (Pos.to_uint p) = true.
Proof.
  pose proof (Unsigned.to_of (Pos.to_uint p)) as H.
  rewrite Unsigned.of_to in H. simpl in H.
  pose proof (Unsigned.to_uint_nonnil p) as Hnil.
  destruct (Pos.to_uint p) as [|d| | | | | | | | | ]; try done.
  destruct d; try done.
  all: exfalso; unfold unorm in H; simpl in H.
  all: match type of H with
       | _ = match nzhead ?u with _ => _ end =>
           pose proof (nzhead_not_D0 u) as Hn; destruct (nzhead u); congruence
       | _ => congruence
       end.
Qed.

Lemma delimiter_number_end k : delimiter k = true -> JSON.number_end k = true.
Proof. destruct k as [|c k]; [done|]. unfold delimiter. by destruct (JSON.digit_of c). Qed.

Lemma decimal_pos p :
  decimal (Z.pos p) = NilEmpty.string_of_uint (Pos.to_uint p).
Proof.
  unfold decimal. simpl. unfold NilZero.string_of_uint.
  pose proof (Unsigned.to_uint_nonnil p). by destruct (Pos.to_uint p).
Qed.

Lemma decimal_neg p :
  decimal (Z.neg p) = String "-" (NilEmpty.string_of_uint (Pos.to_uint p)).
Proof.
  unfold decimal. simpl. unfold NilZero.string_of_uint.
  pose proof (Unsigned.to_uint_nonnil p). by destruct (Pos.to_uint p).
Qed.

Lemma read_number_digits d k :
  d <> Nil -> JSON.json_int d = true -> delimiter k = true ->
  JSON.read_number (NilEmpty.string_of_uint d +:+ k) = Some (Z.of_int (Pos d), k).
Proof.
  intros Hd Hint Hk.
  assert (JSON.read_number (NilEmpty.string_of_uint d +:+ k)
          = let (u, k') := JSON.read_digits (NilEmpty.string_of_uint d +:+ k) in
            if JSON.json_int u && JSON.number_end k'
            then Some (Z.of_int (Pos u), k') else None) as ->.
  { destruct d; done. }
  rewrite read_digits_uint by done.
  by rewrite Hint, delimiter_number_end.
Qed.

Lemma read_number_decimal n k :
  delimiter k = true -> JSON.read_number (decimal n +:+ k) = Some (n, k).
Proof.
  intros Hk. destruct n as [|p|p].
  - by apply (read_number_digits (D0 Nil)).
  - rewrite decimal_pos, read_number_digits;
      auto using Unsigned.to_uint_nonnil, json_int_to_uint.
    do 2 f_equal. apply (DecimalZ.of_to (Z.pos p)).
  - rewrite decimal_neg.
    change (JSON.read_number
              (String "-" (NilEmpty.string_of_uint (Pos.to_uint p)) +:+ k))
      with (let (u, k') :=
              JSON.read_digits (NilEmpty.string_of_uint (Pos.to_uint p) +:+ k) in
            if JSON.json_int u && JSON.number_end k'
            then Some (Z.of_int (Neg u), k') else None).
    rewrite read_digits_uint by done.
    rewrite json_int_to_uint, delimiter_number_end by done. simpl.
    do 2 f_equal. apply (DecimalZ.of_to (Z.neg p)).
Qed.

(** The first character of a number is a digit or the sign. *)
Lemma decimal_head n :
  exists c s, decimal n = String c s /\
    (JSON.digit_of c <> None \/ c = "-"%char).
Proof.
  destruct n as [|p|p].
  - exists "0"%char, EmptyString. split; [done|]. by left.
  - rewrite decimal_pos. pose proof (Unsigned.to_uint_nonnil p).
    destruct (Pos.to_uint p); try done; eexists _, _; (split; [done|]); by left.
  - rewrite decimal_neg. eexists _, _. split; [done|]. by right.
Qed.

Lemma number_head_plain c :
  JSON.digit_of c <> None \/ c = "-"%char ->
  JSON.is_ws c = false /\ Ascii.eqb c "]" = false /\ Ascii.eqb c "}" = false.
Proof.
  destruct c as [[] [] [] [] [] [] [] []]; intros [H|H]; try done.
Qed.

(** The text of a value does not start with a closing bracket. *)
Lemma closing_value c v k :
  c = "]"%char \/ c = "}"%char -> JSON.closing c (JSON.stringify_to v k) = None.
Proof.
  intros Hc. destruct v as [|[]|n|s|l|m]; try (by destruct Hc as [-> | ->]).
  simpl. destruct (decimal_head n) as (c0 & s & -> & Hc0).
  apply number_head_plain in Hc0 as (Hws & H1 & H2).
  unfold JSON.closing. simpl. rewrite Hws.
  by destruct Hc as [-> | ->]; rewrite ?H1, ?H2.
Qed.

Section RoundTrip.
Variable value : JSON.parser json.

Lemma parse_elements_ok l : forall fuel k,
  l <> [] -> (length l <= fuel)%nat -> Forall (reads value) l ->
  JSON.parse_elements value fuel
    (JSON.elements_to JSON.stringify_to l (String "]" k)) = Some (l, k).
Proof.
  induction l as [|x l IH]; intros fuel k Hne Hlen Hall; [done|].
  destruct fuel as [|fuel]; [simpl in Hlen; lia|].
  apply Forall_cons in Hall as [Hx Hl].
  destruct l as [|y l].
  - simpl. by rewrite Hx.
  - change (JSON.elements_to JSON.stringify_to (x :: y :: l) (String "]" k))
      with (JSON.stringify_to x
              (String "," (JSON.elements_to JSON.stringify_to (y :: l)
                             (String "]" k)))).
    set (rest := JSON.elements_to JSON.stringify_to (y :: l) (String "]" k)).
    simpl JSON.parse_elements. rewrite Hx by done.
    simpl JSON.skip_ws. cbv iota. subst rest.
    rewrite IH; [done|done| simpl in *; lia |done].
Qed.

Lemma parse_members_ok m : forall fuel acc k,
  m <> [] -> (length m <= fuel)%nat -> Forall (fun kv => reads value (snd kv)) m ->
  JSON.parse_members value fuel acc
    (JSON.members_to JSON.stringify_to m (String "}" k))
  = Some (Obj.assign acc m, k).
Proof.
  induction m as [|[key x] m IH]; intros fuel acc k Hne Hlen Hall; [done|].
  destruct fuel as [|fuel]; [simpl in Hlen; lia|].
  apply Forall_cons in Hall as [Hx Hm]. simpl in Hx.
  destruct m as [|kv m].
  - simpl. rewrite read_string_escape. simpl. by rewrite Hx.
  - change (JSON.members_to JSON.stringify_to ((key, x) :: kv :: m) (String "}" k))
      with (JSON.quote_to key (String ":" (JSON.stringify_to x
              (String "," (JSON.members_to JSON.stringify_to (kv :: m)
                             (String "}" k)))))).
    set (rest := JSON.members_to JSON.stringify_to (kv :: m) (String "}" k)).
    simpl JSON.parse_members. rewrite read_string_escape.
    simpl JSON.skip_ws. cbv iota. rewrite Hx by done.
    simpl JSON.skip_ws. cbv iota. subst rest.
    rewrite IH; [done|done| simpl in *; lia |done].
Qed.
End RoundTrip.

Lemma weight_positive v : (0 < weight v)%nat.
Proof. destruct v; simpl; lia. Qed.

Lemma list_sum_elem (l : list nat) n : n ∈ l -> (n <= list_sum l)%nat.
Proof.
  induction 1; simpl; lia.
Qed.

Lemma list_sum_length {A} (f : A -> nat) (l : list A) :
  (forall x, 0 < f x)%nat -> (length l <= list_sum (map f l))%nat.
Proof.
  intros Hf. induction l as [|x l IH]; simpl; [lia|]. specialize (Hf x). lia.
Qed.

(** Reading the text of a value gives the value and what follows it. *)
Lemma parse_stringify_to v :
  json_wf v = true ->
  forall fuel k, (weight v < fuel)%nat -> delimiter k = true ->
    JSON.parse_value fuel (JSON.stringify_to v k) = Some (v, k).
Proof.
  induction v as [|b|n|s|l IH|m IH] using json_ind;
    intros Hwf [|fuel] k Hfuel Hk; try lia.
  - done.
  - by destruct b.
  - simpl JSON.stringify_to.
    destruct (decimal_head n) as (c & s & E & Hc).
    pose proof (read_number_decimal n k Hk) as Hread. rewrite E in *.
    apply number_head_plain in Hc as (Hws & _).
    simpl. rewrite Hws.
    destruct c as [[] [] [] [] [] [] [] []]; try done;
      simpl in *; by rewrite Hread.
  - simpl. by rewrite read_string_escape.
  - simpl in Hwf, Hfuel.
    destruct l as [|x l]; [done|].
    set (rest := JSON.elements_to JSON.stringify_to (x :: l) (String "]" k)).
    change (JSON.parse_value (S fuel) (JSON.stringify_to (JArr (x :: l)) k))
      with (match JSON.closing "]" rest with
            | Some k' => Some (JArr [], k')
            | None =>
                match JSON.parse_elements (JSON.parse_value fuel) fuel rest with
                | Some (l, k') => Some (JArr l, k')
                | None => None
                end
            end).
    assert (JSON.closing "]" rest = None) as ->
      by (apply (closing_value "]" x); auto).
    subst rest. rewrite parse_elements_ok; [done|done| |].
    + pose proof (list_sum_length weight (x :: l) weight_positive). lia.
    + apply Forall_forall. intros y Hy k' Hk'.
      rewrite Forall_forall in IH. apply IH; [done| |  |done].
      * rewrite forallb_forall in Hwf. apply Hwf. by apply list_elem_of_In.
      * assert (weight y <= list_sum (map weight (x :: l)))%nat.
        { apply list_sum_elem. by apply list_elem_of_fmap_2. }
        lia.
  - simpl in Hwf, Hfuel. apply andb_prop in Hwf as [Hnd Hwf].
    apply bool_decide_eq_true in Hnd.
    destruct m as [|[key x] m]; [done|].
    set (rest := JSON.members_to JSON.stringify_to ((key, x) :: m) (String "}" k)).
    change (JSON.parse_value (S fuel) (JSON.stringify_to (JObj ((key, x) :: m)) k))
      with (match JSON.closing "}" rest with
            | Some k' => Some (JObj [], k')
            | None =>
                match JSON.parse_members (JSON.parse_value fuel) fuel [] rest with
                | Some (m, k') => Some (JObj m, k')
                | None => None
                end
            end).
    assert (JSON.closing "}" rest = None) as -> by done.
    subst rest. rewrite parse_members_ok; [by rewrite assign_empty|done| |].
    + pose proof (list_sum_length
                    (fun kv : string * json => let '(_, x) := kv in weight x)
                    ((key, x) :: m)) as H.
      assert (forall kv : string * json, 0 < (let '(_, x) := kv in weight x))%nat
        as Hpos by (intros [? ?]; apply weight_positive).
      specialize (H Hpos). simpl in H, Hfuel. simpl. lia.
    + apply Forall_forall. intros [ky y] Hy k' Hk'. simpl.
      rewrite Forall_forall in IH. apply (IH (ky, y)); [done| | |done].
      * rewrite forallb_forall in Hwf. apply (Hwf (ky, y)). by apply list_elem_of_In.
      * assert (weight y <= list_sum (map (fun kv : string * json => let '(_, x) := kv in weight x)
                                        ((key, x) :: m)))%nat.
        { apply list_sum_elem.
          by apply (list_elem_of_fmap_2 (fun kv : string * json => let '(_, x) := kv in weight x) _ (ky, y)). }
        simpl in *. lia.
Qed.

(** The text of a value has a character for each value in it, which is
    why the length of the text bounds the recursion of [JSON.parse]. *)

Lemma append_nil k : EmptyString +:+ k = k.
Proof. reflexivity. Qed.

Lemma append_cons c s k : String c s +:+ k = String c (s +:+ k).
Proof. reflexivity. Qed.

Lemma length_append (s k : string) :
  String.length (s +:+ k) = (String.length s + String.length k)%nat.
Proof.
  induction s; rewrite ?append_nil, ?append_cons; simpl; congruence.
Qed.

Lemma length_escape_char c k :
  (S (String.length k) <= String.length (JSON.escape_char c k))%nat.
Proof. destruct c as [[] [] [] [] [] [] [] []]; simpl; lia. Qed.

Lemma length_escape_to s k :
  (String.length k <= String.length (JSON.escape_to s k))%nat.
Proof.
  induction s as [|c s IH]; simpl; [lia|].
  pose proof (length_escape_char c (JSON.escape_to s k)). lia.
Qed.

Lemma length_quote_to s k :
  (S (String.length k) <= String.length (JSON.quote_to s k))%nat.
Proof.
  unfold JSON.quote_to. simpl.
  pose proof (length_escape_to s (String JSON.dquote k)). simpl in *. lia.
Qed.

Lemma length_stringify_to v : forall k,
  (weight v + String.length k <= String.length (JSON.stringify_to v k))%nat.
Proof.
  induction v as [|b|n|s|l IH|m IH] using json_ind; intros k.
  - simpl. rewrite length_append. simpl. lia.
  - destruct b; simpl; rewrite length_append; simpl; lia.
  - simpl. rewrite length_append.
    destruct (decimal_head n) as (c & s & -> & _). simpl. lia.
  - simpl JSON.stringify_to. pose proof (length_quote_to s k). simpl weight. lia.
  - simpl.
    enough (forall k', list_sum (map weight l) + String.length k'
                       <= String.length (JSON.elements_to JSON.stringify_to l k'))%nat
      as H by (specialize (H (String "]" k)); simpl in H; lia).
    induction IH as [|x l Hx _ IHl]; intros k'; [simpl; lia|].
    simpl. destruct l as [|y l].
    + specialize (Hx k'). simpl. lia.
    + specialize (IHl k').
      specialize (Hx (String "," (JSON.elements_to JSON.stringify_to (y :: l) k'))).
      simpl in *. lia.
  - simpl.
    enough (forall k',
              list_sum (map (fun kv : string * json => let '(_, x) := kv in weight x) m)
              + String.length k'
              <= String.length (JSON.members_to JSON.stringify_to m k'))%nat
      as H by (specialize (H (String "}" k)); simpl in H; lia).
    induction IH as [|[key x] m Hx _ IHm]; intros k'; [simpl; lia|].
    simpl in Hx.
    change (JSON.members_to JSON.stringify_to ((key, x) :: m) k')
      with (JSON.quote_to key (String ":" (JSON.stringify_to x
              match m with
              | [] => JSON.members_to JSON.stringify_to m k'
              | _ :: _ => String "," (JSON.members_to JSON.stringify_to m k')
              end))).
    match goal with
    | |- context [JSON.quote_to key ?r] => pose proof (length_quote_to key r) as Hq
    end.
    simpl in Hq. simpl list_sum.
    destruct m as [|kv m].
    + specialize (Hx k'). simpl in *. lia.
    + specialize (IHm k').
      specialize (Hx (String "," (JSON.members_to JSON.stringify_to (kv :: m) k'))).
      simpl String.length in *. simpl list_sum in *. simpl map in *. lia.
Qed.

(** [JSON.parse(JSON.stringify(v))] is [v]. *)
Lemma parse_stringify v :
  json_wf v = true -> JSON.parse (JSON.stringify v) = Some v.
Proof.
  intros Hwf. unfold JSON.parse, JSON.stringify.
  rewrite parse_stringify_to; [done|done| |done].
  pose proof (length_stringify_to v EmptyString). simpl in *. lia.
Qed.

(** ** Composite keys *)

Lemma R_last_cons {A} (x : A) l : l <> [] -> R_last (x :: l) = R_last l.
Proof. by destruct l. Qed.

Lemma R_split_nonempty sep s : R_split sep s <> [].
Proof.
  destruct s as [|c s]; simpl; [done|].
  destruct (Ascii.eqb c sep); [done|]. by destruct (R_split sep s).
Qed.

(** A string without the separator is its own single piece. *)
Lemma R_split_plain sep s : sep ∉ chars s -> R_split sep s = [s].
Proof.
  induction s as [|c s IH]; simpl; intros Hs; [done|].
  apply not_elem_of_cons in Hs as [Hne Hs].
  assert (Ascii.eqb c sep = false) as -> by (apply Ascii.eqb_neq; congruence).
  by rewrite IH.
Qed.

(** The pieces of a text with a separator in it: a first piece, and then
    pieces the last of which is the last piece of what follows the
    separator. *)
Lemma R_split_append sep p s :
  exists h t, R_split sep (p +:+ String sep s) = h :: t /\ t <> [] /\
    R_last t = R_last (R_split sep s).
Proof.
  induction p as [|c p (h & t & E & Ht & Hlast)].
  - rewrite append_nil. simpl. rewrite Ascii.eqb_refl.
    eexists _, _. split; [done|]. split; [apply R_split_nonempty|done].
  - rewrite append_cons. simpl. rewrite E.
    destruct (Ascii.eqb c sep); eexists _, _; (split; [done|]).
    + split; [done|]. by rewrite R_last_cons.
    + done.
Qed.

Lemma R_last_split_append sep p s :
  R_last (R_split sep (p +:+ String sep s)) = R_last (R_split sep s).
Proof.
  destruct (R_split_append sep p s) as (h & t & -> & Ht & <-).
  by apply R_last_cons.
Qed.

Lemma formatID_key type s :
  "-"%char ∉ chars s -> formatID (type +:+ "-" +:+ s) = Some s.
Proof.
  intros Hs. unfold formatID.
  change ("-" +:+ s) with (String "-" s).
  by rewrite R_last_split_append, R_split_plain.
Qed.

Lemma chars_string_of_uint d :
  "-"%char ∉ chars (NilEmpty.string_of_uint d).
Proof.
  induction d; simpl; rewrite ?not_elem_of_cons; try done.
  apply not_elem_of_nil.
Qed.

(** The decimal text of a counter has no separator in it. *)
Lemma chars_decimal_counter (n : N) : "-"%char ∉ chars (decimal (Z.of_N n)).
Proof.
  destruct n as [|p]; simpl Z.of_N.
  - change (decimal 0) with "0". simpl. rewrite not_elem_of_cons.
    split; [done|apply not_elem_of_nil].
  - rewrite decimal_pos. apply chars_string_of_uint.
Qed.



(** In particular for the types of the enum. *)
Lemma formatID_of_item_types :
  Forall (fun entry : string * string =>
            forall id, "-"%char ∉ chars id ->
              formatID (uniqueIDForTypeAndID entry.2 (JStr id)) = Some id)
    types.
Proof.
  apply Forall_forall. intros entry _ id Hid.
  unfold uniqueIDForTypeAndID. simpl. by apply formatID_key.
Qed.

(** The same for the ID that the allocator issued. *)
Lemma formatID_counter type (n : N) :
  formatID (uniqueIDForTypeAndID type (JNum (Z.of_N n)))
  = Some (decimal (Z.of_N n)).
Proof. apply formatID_key, chars_decimal_counter. Qed.

(** ** The repository *)

Lemma stringify_nonempty v : String.eqb (JSON.stringify v) EmptyString = false.
Proof.
  pose proof (length_stringify_to v EmptyString) as H.
  pose proof (weight_positive v).
  unfold JSON.stringify. destruct (JSON.stringify_to v EmptyString); [simpl in H; lia|done].
Qed.

Lemma createItem_run owner type tags name contentJSON st :
  createItem owner type tags name contentJSON st
  = (Ok [("type", JStr type); ("id", JNum (Z.of_N (next_counter type st)))],
     store_after_create owner type tags name contentJSON st).
Proof. by destruct tags, name. Qed.

Lemma next_counter_after_create owner type tags name contentJSON st :
  next_counter type (store_after_create owner type tags name contentJSON st)
  = (next_counter type st + 1)%N.
Proof. unfold next_counter at 1. simpl. by rewrite lookup_insert_eq. Qed.

Lemma append_inj_l (p s1 s2 : string) : p +:+ s1 = p +:+ s2 -> s1 = s2.
Proof.
  induction p as [|c p IH]; rewrite ?append_nil, ?append_cons; [done|].
  intros [= E]. auto.
Qed.

Lemma decimal_inj n m : decimal n = decimal m -> n = m.
Proof.
  intros E.
  pose proof (read_number_decimal n EmptyString eq_refl) as Hn.
  pose proof (read_number_decimal m EmptyString eq_refl) as Hm.
  rewrite E in Hn. congruence.
Qed.

(** Different counters make different keys. *)
Lemma item_key_counter_inj owner type (n m : N) :
  item_key owner type (JNum (Z.of_N n)) = item_key owner type (JNum (Z.of_N m)) ->
  n = m.
Proof.
  unfold item_key, uniqueIDForTypeAndID. intros [= E].
  apply append_inj_l in E. apply (append_inj_l "-") in E. simpl in E.
  apply decimal_inj in E. lia.
Qed.

Lemma formatItem_created owner type tags name contentJSON counter :
  json_wf contentJSON = true ->
  formatItem (created_item owner type tags name contentJSON counter)
  = Ok [ ("ownerID", JStr (uniqueIDForOwner owner));
         ("id", JStr (decimal (Z.of_N counter)));
         ("type", JStr type);
         ("tags", match tags with Some t => t | None => JArr [] end);
         ("name", match name with Some n => n | None => JStr "Untitled" end);
         ("contentJSON", contentJSON) ].
Proof.
  intros Hwf. unfold formatItem, formatted_id, parsed_content. simpl.
  rewrite formatID_counter, stringify_nonempty. simpl.
  by rewrite parse_stringify.
Qed.

(** C4, as amended.  [readItem], right after [createItem] and with the
    same owner and type and the id that [createItem] returned, returns a
    record whose id is the decimal string of the counter that the allocator
    returned, [String(counter)], and whose [contentJSON] is the value that
    was passed to [createItem]. *)
Theorem readItem_after_createItem owner type tags name contentJSON st :
  json_wf contentJSON = true ->
  exists counter st' item st'',
    (incrementIDForType type st).1 = Ok counter /\
    createItem owner type tags name contentJSON st
    = (Ok [("type", JStr type); ("id", JNum (Z.of_N counter))], st') /\
    readItem owner type (JNum (Z.of_N counter)) st' = (Ok (Some item), st'') /\
    Obj.get item "id" = Some (JStr (js_toString (JNum (Z.of_N counter)))) /\
    Obj.get item "contentJSON" = Some contentJSON.
Proof.
  intros Hwf. eexists (next_counter type st), _, _, _.
  split; [done|]. split; [apply createItem_run|].
  unfold readItem, map_result, and_then, getItem. simpl.
  change (uniqueIDForOwner owner,
          uniqueIDForTypeAndID type (JNum (Z.of_N (next_counter type st))))
    with (item_key owner type (JNum (Z.of_N (next_counter type st)))).
  rewrite lookup_insert_eq.
  rewrite (formatItem_created owner type tags name contentJSON) by done.
  done.
Qed.

Lemma readItem_after_createItem_witness :
  json_wf picture_content = true /\
  exists counter st' item st'',
    (incrementIDForType "picture" empty_store).1 = Ok counter /\
    createItem organization_1 "picture" None None picture_content empty_store
    = (Ok [("type", JStr "picture"); ("id", JNum (Z.of_N counter))], st') /\
    readItem organization_1 "picture" (JNum (Z.of_N counter)) st'
    = (Ok (Some item), st'') /\
    Obj.get item "id" = Some (JStr (js_toString (JNum (Z.of_N counter)))) /\
    Obj.get item "contentJSON" = Some picture_content.
Proof.
  split; [reflexivity|].
  apply (readItem_after_createItem organization_1 "picture" None None
           picture_content empty_store).
  reflexivity.
Defined.

(** C4, as the claim has it, fails: [createItem] returns the counter, the
    number 1, and the record that [readItem] then returns has the string
    ['1'] for its id, which [formatID] cut off the key; a string is not
    the number. *)
Lemma readItem_id_is_not_the_counter :
  let created :=
    createItem organization_1 "picture" None None picture_content empty_store in
  (incrementIDForType "picture" empty_store).1 = Ok 1%N /\
  created.1 = Ok [("type", JStr "picture"); ("id", JNum 1)] /\
  exists item,
    (readItem organization_1 "picture" (JNum 1) created.2).1 = Ok (Some item) /\
    Obj.get item "id" = Some (JStr "1") /\
    Obj.get item "id" <> Some (JNum 1).
Proof.
  cbv zeta. split; [reflexivity|]. split; [reflexivity|].
  eexists. split; [vm_compute; reflexivity|]. split; [reflexivity|discriminate].
Qed.

(** C5.  [createItem] first has the allocator issue an ID for the type and
    then puts one record, whose [contentJSON] is the JSON text of the input,
    whose [name] is ['Untitled'] and whose [tags] is [[]] when they are left
    out; it returns the type and the counter of the allocator.  A second
    call, with the same arguments, is issued the next ID and puts a second
    record. *)
Theorem createItem_allocates_then_puts owner type tags name contentJSON st :
  exists counter st' st'',
    let item := created_item owner type tags name contentJSON counter in
    (incrementIDForType type st).1 = Ok counter /\
    createItem owner type tags name contentJSON st
    = (Ok [("type", JStr type); ("id", JNum (Z.of_N counter))], st') /\
    calls st' = CallPutItem item :: CallIncrementID type :: calls st /\
    items st' = <[item_key owner type (JNum (Z.of_N counter)) := item]> (items st) /\
    Obj.get item "contentJSON" = Some (JStr (JSON.stringify contentJSON)) /\
    Obj.get item "name" = Some (default (JStr "Untitled") name) /\
    Obj.get item "tags" = Some (default (JArr []) tags) /\
    createItem owner type tags name contentJSON st'
    = (Ok [("type", JStr type); ("id", JNum (Z.of_N (counter + 1)))], st'') /\
    items st'' !! item_key owner type (JNum (Z.of_N counter)) = Some item /\
    items st'' !! item_key owner type (JNum (Z.of_N (counter + 1)))
    = Some (created_item owner type tags name contentJSON (counter + 1)).
Proof.
  exists (next_counter type st).
  eexists (store_after_create owner type tags name contentJSON st), _. cbv zeta.
  split; [done|]. split; [apply createItem_run|].
  split; [done|]. split; [done|].
  split; [done|]. split; [by destruct name|]. split; [by destruct tags|].
  rewrite createItem_run, next_counter_after_create.
  split; [done|]. unfold store_after_create at 1 3. simpl.
  rewrite next_counter_after_create.
  split; [|by rewrite lookup_insert_eq].
  rewrite lookup_insert_ne; [by rewrite lookup_insert_eq|].
  intros E. apply item_key_counter_inj in E. lia.
Qed.

(** ** Updates *)

Lemma get_absent (o : obj) k : k ∉ Obj.keys o -> Obj.get o k = None.
Proof.
  induction o as [|[k' v'] o IH]; simpl; intros Hk; [done|].
  apply not_elem_of_cons in Hk as [Hne Hk].
  assert (String.eqb k' k = false) as -> by (apply String.eqb_neq; congruence).
  auto.
Qed.

Lemma get_present (o : obj) k : Obj.get o k <> None -> k ∈ Obj.keys o.
Proof.
  induction o as [|[k' v'] o IH]; simpl; [done|].
  destruct (String.eqb k' k) eqn:E.
  - apply String.eqb_eq in E as ->. intros _. left.
  - intros H. right. auto.
Qed.

(** A property that the source does not have is left as it was. *)
Lemma get_assign_miss (src tgt : obj) k :
  Obj.get src k = None -> Obj.get (Obj.assign tgt src) k = Obj.get tgt k.
Proof.
  unfold Obj.assign. revert tgt.
  induction src as [|[k' v'] src IH]; intros tgt; simpl; [done|].
  destruct (String.eqb k' k) eqn:E; [done|]. intros Hk.
  rewrite IH by done. apply get_set_ne. by apply String.eqb_neq.
Qed.

(** A property of the source is written. *)
Lemma get_assign_hit (src tgt : obj) k v :
  NoDup (Obj.keys src) -> Obj.get src k = Some v ->
  Obj.get (Obj.assign tgt src) k = Some v.
Proof.
  unfold Obj.assign, Obj.keys. revert tgt.
  induction src as [|[k' v'] src IH]; intros tgt Hnd; simpl; [done|].
  apply NoDup_cons in Hnd as [Hk' Hnd].
  destruct (String.eqb k' k) eqn:E.
  - apply String.eqb_eq in E as ->. intros [= ->].
    pose proof (get_assign_miss src (Obj.set tgt k v) k) as H.
    unfold Obj.assign in H. rewrite H by (by apply get_absent).
    apply get_set_eq.
  - by apply IH.
Qed.

Lemma updateItem_run key sets st :
  sets <> [] -> existsb is_key_attribute (Obj.keys sets) = false ->
  updateItem key sets st = (Ok (updated_item key sets st), store_after_update key sets st).
Proof.
  intros Hne Hkeys. unfold updateItem. rewrite Hkeys.
  by rewrite bool_decide_eq_false_2.
Qed.

(** C6.  For an item that exists, [updateItemWithChanges] with the changeset
    [{name: X}] returns, and stores, the record with that name and every
    other property, [tags] and [contentJSON] among them, as it was; no
    other record changes. *)
Theorem updateItemWithChanges_name_only owner type id newName st item :
  items st !! item_key owner type id = Some item ->
  exists item' st',
    updateItemWithChanges owner type id [("name", newName)] st = (Ok item', st') /\
    items st' !! item_key owner type id = Some item' /\
    Obj.get item' "name" = Some newName /\
    Obj.get item' "tags" = Obj.get item "tags" /\
    Obj.get item' "contentJSON" = Obj.get item "contentJSON" /\
    (forall k, k <> "name" -> Obj.get item' k = Obj.get item k) /\
    (forall key, key <> item_key owner type id -> items st' !! key = items st !! key).
Proof.
  intros Hitem.
  assert (updated_item (item_key owner type id) [("name", newName)] st
          = Obj.set item "name" newName) as E
    by (unfold updated_item; by rewrite Hitem).
  exists (Obj.set item "name" newName).
  exists (store_after_update (item_key owner type id) [("name", newName)] st).
  split.
  { rewrite <- E. unfold updateItemWithChanges, getUpdateExpression.
    by apply updateItem_run. }
  simpl. rewrite E.
  split; [by rewrite lookup_insert_eq|].
  split; [apply get_set_eq|].
  split; [by apply get_set_ne|].
  split; [by apply get_set_ne|].
  split; [intros k Hk; by apply get_set_ne|].
  intros key Hkey. by rewrite lookup_insert_ne.
Qed.

Example picture_store_item :
  items picture_store !! item_key organization_1 "picture" (JNum 1)
  = Some (created_item organization_1 "picture" None None picture_content 1).
Proof. vm_compute. reflexivity. Qed.

Lemma updateItemWithChanges_name_only_witness :
  items picture_store !! item_key organization_1 "picture" (JNum 1)
  = Some (created_item organization_1 "picture" None None picture_content 1) /\
  exists item' st',
    updateItemWithChanges organization_1 "picture" (JNum 1) [("name", JStr "X")]
      picture_store = (Ok item', st') /\
    items st' !! item_key organization_1 "picture" (JNum 1) = Some item' /\
    Obj.get item' "name" = Some (JStr "X") /\
    Obj.get item' "tags"
    = Obj.get (created_item organization_1 "picture" None None picture_content 1)
        "tags" /\
    Obj.get item' "contentJSON"
    = Obj.get (created_item organization_1 "picture" None None picture_content 1)
        "contentJSON" /\
    (forall k, k <> "name" ->
       Obj.get item' k
       = Obj.get (created_item organization_1 "picture" None None picture_content 1) k) /\
    (forall key, key <> item_key organization_1 "picture" (JNum 1) ->
       items st' !! key = items picture_store !! key).
Proof.
  split; [exact picture_store_item|].
  exact (updateItemWithChanges_name_only organization_1 "picture" (JNum 1)
           (JStr "X") picture_store _ picture_store_item).
Defined.

Lemma key_of_get item key :
  key_of item = Some key ->
  Obj.get item "ownerID" = Some (JStr key.1) /\ Obj.get item "id" = Some (JStr key.2).
Proof.
  unfold key_of. intros H.
  destruct (Obj.get item "ownerID") as [[]|]; try done.
  destruct (Obj.get item "id") as [[]|]; try done.
  by injection H as <-.
Qed.

Lemma no_key_attribute_get (sets : obj) :
  existsb is_key_attribute (Obj.keys sets) = false ->
  Obj.get sets "ownerID" = None /\ Obj.get sets "id" = None.
Proof.
  intros H. split; apply get_absent; intros Hin;
    apply list_elem_of_In in Hin;
    (assert (existsb is_key_attribute (Obj.keys sets) = true) as E
       by (apply existsb_exists; eexists; split; [exact Hin|done]));
    congruence.
Qed.

(** C9.  What [updateNameForItem], [updateTagsForItem] and
    [updateItemWithChanges] return is the [ALL_NEW] attributes of the one
    [updateItem] they make: the stored record with the new name, the new
    tags or the changes assigned to it, as the store holds it after the
    update, with no [formatItem] applied: its [id] is the composite key of
    the type and the id, and a [contentJSON] that was stored as a string
    (and that the changeset does not replace) is that string. *)
Theorem updates_return_raw_attributes owner type id st item :
  items st !! item_key owner type id = Some item ->
  key_of item = Some (item_key owner type id) ->
  (forall newName,
     returns_raw owner type id item [("name", newName)] st
       (updateNameForItem owner type id newName st)) /\
  (forall newTags,
     returns_raw owner type id item [("tags", newTags)] st
       (updateTagsForItem owner type id newTags st)) /\
  (forall changes,
     changes <> [] -> existsb is_key_attribute (Obj.keys changes) = false ->
     returns_raw owner type id item changes st
       (updateItemWithChanges owner type id changes st)).
Proof.
  intros Hitem Hkey.
  apply key_of_get in Hkey as [_ Hid].
  assert (forall sets,
            sets <> [] -> existsb is_key_attribute (Obj.keys sets) = false ->
            returns_raw owner type id item sets st
              (updateItem (item_key owner type id) sets st)) as H.
  { intros sets Hne Hkeys.
    assert (updated_item (item_key owner type id) sets st = Obj.assign item sets)
      as E by (unfold updated_item; by rewrite Hitem).
    unfold returns_raw. cbv zeta. split; [|split].
    - rewrite <- E. by apply updateItem_run.
    - apply no_key_attribute_get in Hkeys as [_ Hsid]. by rewrite get_assign_miss.
    - intros s Hcontent Hsets. by rewrite get_assign_miss. }
  split; [|split].
  - intros newName. by apply H.
  - intros newTags. by apply H.
  - intros changes. apply H.
Qed.

Example picture_store_key :
  key_of (created_item organization_1 "picture" None None picture_content 1)
  = Some (item_key organization_1 "picture" (JNum 1)).
Proof. reflexivity. Qed.

Lemma updates_return_raw_attributes_witness :
  let item := created_item organization_1 "picture" None None picture_content 1 in
  items picture_store !! item_key organization_1 "picture" (JNum 1) = Some item /\
  key_of item = Some (item_key organization_1 "picture" (JNum 1)) /\
  returns_raw organization_1 "picture" (JNum 1) item [("name", JStr "X")]
    picture_store
    (updateNameForItem organization_1 "picture" (JNum 1) (JStr "X") picture_store).
Proof.
  cbv zeta. split; [exact picture_store_item|]. split; [exact picture_store_key|].
  exact (proj1 (updates_return_raw_attributes organization_1 "picture" (JNum 1)
                  picture_store _ picture_store_item picture_store_key)
           (JStr "X")).
Defined.

(** C10.  The three updates check nothing about the item: for an owner,
    type and id under which the store holds no record, each succeeds, and
    the store then holds, and the update returns, a record of the two key
    attributes and the attributes that were set, and of nothing else. *)
Theorem updates_of_absent_item_create_it owner type id st :
  items st !! item_key owner type id = None ->
  let key := item_key owner type id in
  (forall newName,
     updateNameForItem owner type id newName st
     = (Ok [("ownerID", JStr key.1); ("id", JStr key.2); ("name", newName)],
        store_after_update key [("name", newName)] st)) /\
  (forall newTags,
     updateTagsForItem owner type id newTags st
     = (Ok [("ownerID", JStr key.1); ("id", JStr key.2); ("tags", newTags)],
        store_after_update key [("tags", newTags)] st)) /\
  (forall changes,
     changes <> [] -> existsb is_key_attribute (Obj.keys changes) = false ->
     updateItemWithChanges owner type id changes st
     = (Ok (Obj.assign (key_item key) changes), store_after_update key changes st) /\
     forall k, Obj.get (Obj.assign (key_item key) changes) k <> None ->
               k = "ownerID" \/ k = "id" \/ k ∈ Obj.keys changes) /\
  (forall sets,
     items (store_after_update key sets st) !! key
     = Some (Obj.assign (key_item key) sets)).
Proof.
  intros Hitem key.
  assert (forall sets, updated_item key sets st = Obj.assign (key_item key) sets)
    as E by (intros; unfold updated_item; subst key; by rewrite Hitem).
  split; [|split; [|split]].
  - intros newName. unfold updateNameForItem. fold key.
    rewrite updateItem_run by done. by rewrite E.
  - intros newTags. unfold updateTagsForItem. fold key.
    rewrite updateItem_run by done. by rewrite E.
  - intros changes Hne Hkeys. split.
    + rewrite <- E. by apply updateItem_run.
    + intros k Hk.
      destruct (Obj.get changes k) eqn:Hc.
      * right; right. apply get_present. congruence.
      * rewrite get_assign_miss in Hk by done. unfold key_item, Obj.get in Hk.
        destruct (String.eqb "ownerID" k) eqn:E1;
          [apply String.eqb_eq in E1; auto|].
        destruct (String.eqb "id" k) eqn:E2;
          [apply String.eqb_eq in E2; auto|done].
  - intros sets. simpl. by rewrite lookup_insert_eq, E.
Qed.

Lemma updates_of_absent_item_create_it_witness :
  items empty_store !! item_key organization_1 "picture" (JStr "7") = None /\
  updateNameForItem organization_1 "picture" (JStr "7") (JStr "X") empty_store
  = (Ok [("ownerID", JStr "organization-1"); ("id", JStr "picture-7");
         ("name", JStr "X")],
     store_after_update (item_key organization_1 "picture" (JStr "7"))
       [("name", JStr "X")] empty_store).
Proof.
  split; [reflexivity|].
  exact (proj1 (updates_of_absent_item_create_it organization_1 "picture"
                  (JStr "7") empty_store eq_refl) (JStr "X")).
Defined.

(** ** Routes *)

#[local] Arguments readItem : simpl never.
#[local] Arguments createItem : simpl never.
#[local] Arguments updateItemWithChanges : simpl never.
#[local] Arguments readAllItemsForOwner : simpl never.
#[local] Arguments readAllItemsForType : simpl never.

(** The fields of a route of the table. *)
Ltac route_fields :=
  cbn [route_validate route_pre route_handler concat app no_validation].

(** The request after the preconditions [owner] and [type]. *)
Lemma run_pre_owner_type p payload st :
  run_pre [pre_owner_step; pre_type_step] (incoming p payload) st
  = (Ok (inl {| params := p; payload := payload;
                pre := [ ("owner", JObj [ ("type", JStr (ownerType p));
                                          ("id", JStr (ownerID p)) ]);
                         ("type", JStr (itemType p)) ] |}), st).
Proof. reflexivity. Qed.

(** The handlers then read the owner and the type of the path. *)
Lemma with_owner_type_run p payload f :
  with_owner_type
    {| params := p; payload := payload;
       pre := [ ("owner", JObj [ ("type", JStr (ownerType p));
                                 ("id", JStr (ownerID p)) ]);
                ("type", JStr (itemType p)) ] |} f
  = f (params_owner p) (itemType p).
Proof. reflexivity. Qed.

(** C7.  [readItem] for an owner, type and id under which the store holds
    no record resolves to nothing, without an error, after the one
    [getItem]; and the route [GET .../items/type:{itemType}/{id}] answers
    such a request with the status 404. *)
Theorem readItem_absent_not_found :
  (forall owner type id st,
     items st !! item_key owner type id = None ->
     readItem owner type id st
     = (Ok None, log (CallGetItem (item_key owner type id)) st)) /\
  (forall p payload st,
     items st !! item_key (params_owner p) (itemType p) (JStr (id p)) = None ->
     let notFound := Boom_notFound (not_found_message (itemType p) (id p)) in
     serve route_item (incoming p payload) st
     = (Ok (ErrorResponse notFound),
        log (CallGetItem (item_key (params_owner p) (itemType p) (JStr (id p)))) st)
     /\ error_status notFound = 404%nat).
Proof.
  assert (forall owner type id st,
            items st !! item_key owner type id = None ->
            readItem owner type id st
            = (Ok None, log (CallGetItem (item_key owner type id)) st)) as Hread.
  { intros owner type id st Habsent.
    unfold readItem, map_result, and_then, getItem.
    fold (item_key owner type id). by rewrite Habsent. }
  split; [exact Hread|].
  intros p payload st Habsent. split; [|done].
  unfold serve, route_item, and_then. route_fields.
  rewrite run_pre_owner_type. simpl.
  unfold catch, and_then.
  rewrite with_owner_type_run. by rewrite Hread.
Qed.

Lemma readItem_absent_not_found_witness :
  items empty_store
    !! item_key organization_1 "picture" (JStr "1") = None /\
  readItem organization_1 "picture" (JStr "1") empty_store
  = (Ok None,
     log (CallGetItem (item_key organization_1 "picture" (JStr "1"))) empty_store) /\
  Result_map status_of (serve route_item (incoming picture_1 None) empty_store).1
  = Ok (Some 404%nat).
Proof.
  split; [reflexivity|]. split.
  - exact (proj1 readItem_absent_not_found organization_1 "picture" (JStr "1")
             empty_store eq_refl).
  - pose proof (proj2 readItem_absent_not_found picture_1 None empty_store eq_refl)
      as [H _].
    by rewrite H.
Defined.

Lemma get_elem_of (o : obj) k v : Obj.get o k = Some v -> (k, v) ∈ o.
Proof.
  induction o as [|[k' v'] o IH]; simpl; [done|].
  destruct (String.eqb k' k) eqn:E.
  - apply String.eqb_eq in E as ->. intros [= ->]. left.
  - intros H. right. auto.
Qed.

(** A property of a validated object is a key of the schema, and its value
    is of the schema of the key. *)
Lemma joi_object_property keys m k v :
  Joi.object keys (JObj m) = true -> (k, v) ∈ m ->
  exists check, Joi.schema_of keys k = Some check /\ check v = true.
Proof.
  unfold Joi.object. intros H Hin.
  apply andb_prop in H as [H _]. rewrite forallb_forall in H.
  apply list_elem_of_In in Hin. specialize (H _ Hin). simpl in H.
  destruct (Joi.schema_of keys k); [eauto|done].
Qed.

(** The validation of the PATCH route lets no key attribute through. *)
Lemma patchValidator_no_key_attribute changes :
  patchValidator (JObj changes) = true ->
  existsb is_key_attribute (Obj.keys changes) = false.
Proof.
  intros Hvalid. apply not_true_is_false. intros H.
  apply existsb_exists in H as (k & Hin & Hk).
  apply list_elem_of_In, list_elem_of_fmap in Hin as ([k' v] & -> & Hin).
  destruct (joi_object_property _ _ _ _ Hvalid Hin) as (check & Hcheck & _).
  unfold is_key_attribute in Hk. simpl in Hk.
  apply orb_prop in Hk as [Hk|Hk]; apply String.eqb_eq in Hk; subst k'; done.
Qed.

(** C8.  The handler of the PATCH route passes the whole validated payload
    to [updateItemWithChanges] as the changeset, and the changeset goes to
    the store as it is.  When the payload has a property at all, every
    property of it is a property of the record that the store then holds,
    with the value the payload gave it; a [contentJSON] of the payload is
    stored as the object it is, not as a string of JSON text. *)
Theorem patch_writes_whole_payload p changes st :
  patchValidator (JObj changes) = true ->
  json_wf (JObj changes) = true ->
  let key := item_key (params_owner p) (itemType p) (JStr (id p)) in
  let served := serve route_patch (incoming p (Some (JObj changes))) st in
  calls served.2 = CallUpdateItem key changes :: calls st /\
  (changes <> [] ->
   exists item,
     served.1 = Ok (Response 200 (Some (JObj item)) None) /\
     items served.2 !! key = Some item /\
     (forall k v, Obj.get changes k = Some v -> Obj.get item k = Some v) /\
     (forall v, Obj.get changes "contentJSON" = Some v ->
                Obj.get item "contentJSON" = Some v /\ exists m, v = JObj m)).
Proof.
  intros Hvalid Hwf key served.
  pose proof (patchValidator_no_key_attribute _ Hvalid) as Hkeys.
  simpl in Hwf. apply andb_prop in Hwf as [Hnd _].
  apply bool_decide_eq_true in Hnd.
  assert (served
          = let (r, st') := updateItem key changes st in
            (match r with
             | Ok item => Ok (Response 200 (Some (JObj item)) None)
             | Fail e => Ok (ErrorResponse e)
             end, st')) as Hserved.
  { subst served. unfold serve, route_patch, and_then. route_fields.
    unfold validate_payload. cbn [payload incoming]. rewrite Hvalid.
    rewrite run_pre_owner_type. simpl. rewrite with_owner_type_run.
    unfold reply_promise, updateItemWithChanges, getUpdateExpression.
    fold (item_key (params_owner p) (itemType p) (JStr (id p))). fold key.
    by destruct (updateItem key changes st) as [[item|e] st']. }
  split.
  { rewrite Hserved. unfold updateItem.
    by destruct (bool_decide (changes = []) || existsb is_key_attribute (Obj.keys changes)). }
  intros Hne. rewrite Hserved, updateItem_run by done.
  exists (updated_item key changes st).
  split; [done|]. split; [simpl; by rewrite lookup_insert_eq|].
  assert (forall k v, Obj.get changes k = Some v ->
                      Obj.get (updated_item key changes st) k = Some v) as Hwritten
    by (intros k v Hk; by apply get_assign_hit).
  split; [exact Hwritten|].
  intros v Hv. split; [by apply Hwritten|].
  apply get_elem_of in Hv.
  destruct (joi_object_property _ _ _ _ Hvalid Hv) as (check & Hcheck & Hv').
  injection Hcheck as <-. destruct v; try done. eauto.
Qed.

Lemma patch_writes_whole_payload_witness :
  patchValidator (JObj patch_payload) = true /\
  json_wf (JObj patch_payload) = true /\
  let key := item_key (params_owner picture_1) (itemType picture_1)
               (JStr (id picture_1)) in
  let served :=
    serve route_patch (incoming picture_1 (Some (JObj patch_payload))) picture_store in
  calls served.2 = CallUpdateItem key patch_payload :: calls picture_store /\
  (patch_payload <> [] ->
   exists item,
     served.1 = Ok (Response 200 (Some (JObj item)) None) /\
     items served.2 !! key = Some item /\
     (forall k v, Obj.get patch_payload k = Some v -> Obj.get item k = Some v) /\
     (forall v, Obj.get patch_payload "contentJSON" = Some v ->
                Obj.get item "contentJSON" = Some v /\ exists m, v = JObj m)).
Proof.
  split; [reflexivity|]. split; [reflexivity|].
  apply (patch_writes_whole_payload picture_1 patch_payload picture_store);
    reflexivity.
Defined.

(** ** The statuses that the routes answer with *)

Lemma formatItem_fails item e : formatItem item = Fail e -> error_status e = 500%nat.
Proof.
  unfold formatItem, formatted_id, parsed_content.
  destruct (Obj.get item "id") as [[]|]; try (by intros [= <-]).
  destruct (truthy (Obj.get item "contentJSON")); [|done].
  destruct (Obj.get item "contentJSON") as [[| | |text| |]|]; try done.
  destruct (JSON.parse text); [done|]. by intros [= <-].
Qed.

Lemma formatItems_fails l e : formatItems l = Fail e -> error_status e = 500%nat.
Proof.
  induction l as [|item l IH]; simpl; [done|].
  destruct (formatItem item) eqn:E.
  - destruct (formatItems l); [done|]. intros [= <-]. by apply IH.
  - intros [= <-]. by eapply formatItem_fails.
Qed.

Lemma with_owner_run p payload pre' f :
  with_owner
    {| params := p; payload := payload;
       pre := ("owner", JObj [ ("type", JStr (ownerType p));
                               ("id", JStr (ownerID p)) ]) :: pre' |} f
  = f (params_owner p).
Proof. reflexivity. Qed.

Lemma query_reply_status ownerID type st :
  exists o st',
    and_then
      (reply_promise (fun l => Some (JArr (map JObj l)))
         (map_result formatItems (query ownerID type)))
      (fun reply => resolve (outcome_of reply)) st = (Ok o, st') /\
    status_of o ∈ statuses.
Proof.
  unfold and_then, reply_promise, map_result, and_then, query.
  destruct (formatItems _) as [l|e] eqn:E; eexists _, _; (split; [done|]); simpl.
  - set_solver.
  - rewrite (formatItems_fails _ _ E). set_solver.
Qed.

Lemma readItem_fails owner type id st e st' :
  readItem owner type id st = (Fail e, st') -> error_status e = 500%nat.
Proof.
  unfold readItem, map_result, and_then, getItem.
  destruct (items st !! _) as [item|]; [|done].
  destruct (formatItem item) eqn:E; [done|].
  intros [= <- _]. by eapply formatItem_fails.
Qed.

(** A request whose preconditions all replied goes to the handler if it is
    valid. *)
Lemma serve_after_pre route p payload st req' :
  run_pre (concat (route_pre route)) (incoming p payload) st = (Ok (inl req'), st) ->
  serve route (incoming p payload) st
  = if route_validate route (incoming p payload) then
      and_then (run_handler (route_handler route) req')
        (fun reply => resolve (outcome_of reply)) st
    else (Ok (ErrorResponse ValidationError), st).
Proof.
  intros Hpre. unfold serve.
  destruct (route_validate route (incoming p payload)); [|done].
  unfold and_then at 1. by rewrite Hpre.
Qed.

Lemma run_pre_owner p payload st :
  run_pre [pre_owner_step] (incoming p payload) st
  = (Ok (inl {| params := p; payload := payload;
                pre := [ ("owner", JObj [ ("type", JStr (ownerType p));
                                          ("id", JStr (ownerID p)) ]) ] |}), st).
Proof. reflexivity. Qed.

(** Every route answers every request, with one of five statuses: none of
    them is the status of an authorization that was refused. *)
Lemma served_status route p body st :
  route ∈ routes ->
  exists o st',
    serve route (incoming p body) st = (Ok o, st') /\ status_of o ∈ statuses.
Proof.
  unfold routes. rewrite !elem_of_cons, elem_of_nil.
  intros [->|[->|[->|[->|[->|[->|[->|[->|[->|[]]]]]]]]]].
  - eexists _, _. split; [reflexivity|]. simpl. set_solver.
  - rewrite (serve_after_pre route_items _ _ _ _ (run_pre_owner p body st)).
    unfold route_items. route_fields. cbn [run_handler].
    rewrite with_owner_run. apply query_reply_status.
  - eexists _, _. split; [reflexivity|]. simpl. set_solver.
  - rewrite (serve_after_pre route_type _ _ _ _ (run_pre_owner_type p body st)).
    unfold route_type. route_fields. cbn [run_handler].
    rewrite with_owner_type_run. apply query_reply_status.
  - eexists _, _. split; [reflexivity|]. simpl. set_solver.
  - rewrite (serve_after_pre route_item _ _ _ _ (run_pre_owner_type p body st)).
    unfold route_item. route_fields. cbn [run_handler].
    rewrite with_owner_type_run. unfold and_then, catch.
    destruct (readItem _ _ _ st) as [[[item|]|e] st'] eqn:E;
      eexists _, _; (split; [done|]); simpl; [set_solver|set_solver|].
    rewrite (readItem_fails _ _ _ _ _ _ E). set_solver.
  - rewrite (serve_after_pre route_post _ _ _ _ (run_pre_owner_type p body st)).
    destruct (route_validate route_post _);
      [|eexists _, _; split; [done|]; simpl; set_solver].
    unfold route_post. route_fields. cbn [run_handler].
    rewrite with_owner_type_run. cbn [payload].
    destruct body as [[| | | | |m]|];
      try (eexists _, _; split; [reflexivity|]; simpl; set_solver).
    destruct (Obj.get m "contentJSON");
      [|eexists _, _; split; [reflexivity|]; simpl; set_solver].
    unfold and_then, catch. rewrite createItem_run.
    eexists _, _. split; [reflexivity|]. simpl. set_solver.
  - rewrite (serve_after_pre route_patch _ _ _ _ (run_pre_owner_type p body st)).
    destruct (route_validate route_patch _);
      [|eexists _, _; split; [done|]; simpl; set_solver].
    unfold route_patch. route_fields. cbn [run_handler].
    rewrite with_owner_type_run. cbn [payload].
    destruct body as [[| | | | |m]|];
      try (eexists _, _; split; [reflexivity|]; simpl; set_solver).
    unfold and_then, reply_promise, updateItemWithChanges, updateItem.
    destruct (_ || _); eexists _, _; (split; [reflexivity|]); simpl; set_solver.
  - eexists _, _. split; [reflexivity|]. simpl. set_solver.
Qed.

(** ** Where the code departs from the specification *)

(** C1 (the code departs from it).  Of the item that [createItem] stored
    for the content [{url: 'a.png'}], [readItem] returns the content as the
    object, while [updateNameForItem], [updateTagsForItem] and
    [updateItemWithChanges], and with the last the PATCH route, return it
    as the JSON text that is stored, and the [id] as the composite key. *)
Theorem updates_return_serialized_content :
  let raw name tags :=
    [ ("ownerID", JStr "organization-1"); ("id", JStr "picture-1");
      ("type", JStr "picture"); ("tags", tags); ("name", name);
      ("contentJSON", JStr (JSON.stringify picture_content)) ] in
  (readItem organization_1 "picture" (JNum 1) picture_store).1
  = Ok (Some [ ("ownerID", JStr "organization-1"); ("id", JStr "1");
               ("type", JStr "picture"); ("tags", JArr []);
               ("name", JStr "Untitled"); ("contentJSON", picture_content) ]) /\
  (updateNameForItem organization_1 "picture" (JNum 1) (JStr "X") picture_store).1
  = Ok (raw (JStr "X") (JArr [])) /\
  (updateTagsForItem organization_1 "picture" (JNum 1) (JArr [JStr "x"])
     picture_store).1
  = Ok (raw (JStr "Untitled") (JArr [JStr "x"])) /\
  (updateItemWithChanges organization_1 "picture" (JNum 1) [("name", JStr "X")]
     picture_store).1
  = Ok (raw (JStr "X") (JArr [])) /\
  (serve route_patch (incoming picture_1 (Some (JObj [("name", JStr "X")])))
     picture_store).1
  = Ok (Response 200 (Some (JObj (raw (JStr "X") (JArr [])))) None) /\
  JStr (JSON.stringify picture_content) <> picture_content.
Proof. cbv zeta. repeat split; try (vm_compute; reflexivity). discriminate. Qed.

(** C2 (the code departs from it).  No route of the table runs
    [handlers.authorizedForOwner] as a precondition, though the handler is
    there and would answer the organization 2 with an error (of status 401).
    So no request to a route of the table is answered with the status of a
    refusal, and the routes serve the organization 2 as any other owner: its
    items are queried and returned, and an item is created for it. *)
Theorem unauthorized_owner_is_served :
  forallb (fun route => negb (has_pre handlers_authorizedForOwner route)) routes
  = true /\
  (forall st,
     run_handler handlers_authorizedForOwner
       {| params := pictures_of_2; payload := None;
          pre := [("owner", JObj [("type", JStr "organization"); ("id", JStr "2")])] |}
       st
     = (Ok (ReplyError (Boom 401 "Not allowed to access organization 2")), st)) /\
  (forall route p body st,
     route ∈ routes ->
     exists o st',
       serve route (incoming p body) st = (Ok o, st') /\
       status_of o <> Some 401%nat /\ status_of o <> Some 403%nat) /\
  serve route_items (incoming pictures_of_2 None) picture_store_2
  = (Ok (Response 200
           (Some (JArr [JObj [ ("ownerID", JStr "organization-2"); ("id", JStr "1");
                               ("type", JStr "picture"); ("tags", JArr []);
                               ("name", JStr "Untitled");
                               ("contentJSON", picture_content) ]]))
           None),
     log (CallQuery "organization-2" None) picture_store_2) /\
  (serve route_post
     (incoming pictures_of_2 (Some (JObj [("contentJSON", picture_content)])))
     empty_store).1
  = Ok (Response 201 (Some (JObj [("type", JStr "picture"); ("id", JNum 1)]))
          (Some "/@organization/2/items/picture/1")) /\
  calls (serve route_post
           (incoming pictures_of_2 (Some (JObj [("contentJSON", picture_content)])))
           empty_store).2
  = [ CallPutItem (created_item organization_2 "picture" None None picture_content 1);
      CallIncrementID "picture" ].
Proof.
  split; [reflexivity|]. split; [reflexivity|]. split.
  { intros route p body st Hroute.
    destruct (served_status route p body st Hroute) as (o & st' & Hserve & Hstatus).
    exists o, st'. split; [done|].
    unfold statuses in Hstatus. rewrite !elem_of_cons, elem_of_nil in Hstatus.
    split; intros E; rewrite E in Hstatus;
      destruct Hstatus as [H|[H|[H|[H|[H|[]]]]]]; discriminate. }
  repeat split; vm_compute; reflexivity.
Qed.

(** On the way out of [readItem] and the two queries, [formatItem] does
    parse the content: of a record whose [id] is a string and whose
    [contentJSON] is the JSON text of [v], it makes a record whose
    [contentJSON] is [v]. *)
Lemma formatItem_parses_content item key v :
  Obj.get item "id" = Some (JStr key) ->
  Obj.get item "contentJSON" = Some (JStr (JSON.stringify v)) ->
  json_wf v = true ->
  exists item', formatItem item = Ok item' /\ Obj.get item' "contentJSON" = Some v.
Proof.
  intros Hid Hcontent Hwf.
  unfold formatItem, formatted_id, parsed_content.
  rewrite Hid, Hcontent. simpl. rewrite stringify_nonempty. simpl.
  rewrite parse_stringify by done.
  eexists. split; [done|]. unfold Obj.assign at 1. simpl. apply get_set_eq.
Qed.

(** * Further properties *)

(** ** Keys *)

Lemma append_inj_r (p1 p2 s : string) : p1 +:+ s = p2 +:+ s -> p1 = p2.
Proof.
  revert p2. induction p1 as [|c p1 IH]; intros [|c2 p2];
    rewrite ?append_nil, ?append_cons; intros E.
  - done.
  - apply (f_equal String.length) in E. simpl in E.
    rewrite length_append in E. lia.
  - apply (f_equal String.length) in E. simpl in E.
    rewrite length_append in E. lia.
  - injection E as -> E. f_equal. auto.
Qed.

Lemma chars_append (s k : string) : chars (s +:+ k) = chars s ++ chars k.
Proof. induction s; rewrite ?append_nil, ?append_cons; simpl; congruence. Qed.

(** A text with a separator in it, cut at its last separator. *)
Lemma last_separator sep s :
  sep ∈ chars s -> exists p t, s = p +:+ String sep t /\ sep ∉ chars t.
Proof.
  induction s as [|c s IH]; simpl; intros Hs.
  - by apply elem_of_nil in Hs.
  - destruct (decide (sep ∈ chars s)) as [Hin|Hout].
    + destruct (IH Hin) as (p & t & -> & Ht). by exists (String c p), t.
    + apply elem_of_cons in Hs as [->|]; [|done]. by exists EmptyString, s.
Qed.

(** The two cases of [formatID]: a key without separator comes back
    whole, a key cut at its last separator gives what follows it. *)
Lemma formatID_cases s :
  (("-"%char ∉ chars s) /\ formatID s = Some s) \/
  (exists p t, s = p +:+ String "-" t /\ ("-"%char ∉ chars t) /\
               formatID s = Some t).
Proof.
  destruct (decide ("-"%char ∈ chars s)) as [Hin|Hout].
  - right. destruct (last_separator _ _ Hin) as (p & t & -> & Ht). exists p, t.
    split; [done|]. split; [done|].
    unfold formatID. by rewrite R_last_split_append, R_split_plain.
  - left. split; [done|]. unfold formatID. by rewrite R_split_plain; auto.
Qed.

Lemma formatID_total s : exists t, formatID s = Some t.
Proof. destruct (formatID_cases s) as [[_ E]|(p & t & _ & _ & E)]; eauto. Qed.

(** X1.  [formatID] is defined on every string; what it returns has no
    ['-'] in it and is the end of the key: the whole key when the key has no
    separator, and else what follows the last separator. *)
Theorem formatID_is_last_piece s :
  exists t, formatID s = Some t /\ ("-"%char ∉ chars t) /\
    (s = t \/ exists p, s = p +:+ String "-" t).
Proof.
  destruct (formatID_cases s) as [[Hs E]|(p & t & Hs & Ht & E)].
  - exists s. auto.
  - exists t. eauto.
Qed.

(** X2.  The composite key gives the id back exactly when the id has no
    ['-'] in it: of an id with a separator only the last piece comes
    back. *)
Theorem formatID_round_trip_iff type id :
  formatID (uniqueIDForTypeAndID type (JStr id)) = Some id
  <-> "-"%char ∉ chars id.
Proof.
  split.
  - intros E. destruct (formatID_cases (uniqueIDForTypeAndID type (JStr id)))
      as [[Hsep Ht]|(p & t & _ & Hsep & Ht)]; congruence.
  - intros Hid. unfold uniqueIDForTypeAndID. simpl. by apply formatID_key.
Qed.

Lemma not_elem_of_chars_12 : "-"%char ∉ chars "12".
Proof. simpl. rewrite !not_elem_of_cons. repeat split; try done. apply not_elem_of_nil. Qed.

(** X3.  Keys of ids without separator are told apart: two pairs of a type
    and such an id that make the same composite key are the same pair.
    With a separator in the id they are not: ['story'] with ['screen-1'] and
    ['story-screen'] with ['1'] make one key. *)
Theorem uniqueIDForTypeAndID_inj :
  (forall type1 id1 type2 id2,
     "-"%char ∉ chars id1 -> "-"%char ∉ chars id2 ->
     uniqueIDForTypeAndID type1 (JStr id1) = uniqueIDForTypeAndID type2 (JStr id2) ->
     type1 = type2 /\ id1 = id2) /\
  uniqueIDForTypeAndID "story" (JStr "screen-1")
  = uniqueIDForTypeAndID "story-screen" (JStr "1").
Proof.
  split; [|reflexivity].
  intros type1 id1 type2 id2 H1 H2 E.
  assert (id1 = id2) as <-.
  { apply (f_equal formatID) in E.
    unfold uniqueIDForTypeAndID in E. simpl in E.
    rewrite !formatID_key in E by done. congruence. }
  split; [|done]. unfold uniqueIDForTypeAndID in E.
  by apply append_inj_r in E.
Qed.

Lemma uniqueIDForTypeAndID_inj_witness :
  ("-"%char ∉ chars "12") /\ ("-"%char ∉ chars "12") /\
  uniqueIDForTypeAndID "picture" (JStr "12") = uniqueIDForTypeAndID "picture" (JStr "12") /\
  "picture" = "picture" /\ "12" = "12".
Proof.
  split; [exact not_elem_of_chars_12|]. split; [exact not_elem_of_chars_12|].
  split; [reflexivity|].
  exact (proj1 uniqueIDForTypeAndID_inj "picture" "12" "picture" "12"
           not_elem_of_chars_12 not_elem_of_chars_12 eq_refl).
Defined.

(** ** [formatItem] *)

(** Reading a property of an object that properties were written to. *)
Ltac get_set :=
  repeat (rewrite get_set_eq || rewrite get_set_ne by done).

(** The successful runs of [formatItem], case by case: the goal is left
    with the record it returned written out. *)
Ltac formatItem_resolved item :=
  let s := fresh "s" in
  let t := fresh "t" in
  let Ht := fresh "Ht" in
  unfold formatItem, formatted_id, parsed_content;
  rewrite assign_empty by done;
  destruct (Obj.get item "id") as [[| | |s| |]|] eqn:Hid; try done;
  destruct (formatID_total s) as [t Ht]; rewrite Ht; simpl;
  destruct (Obj.get item "contentJSON") as [[|b|n|text|l|m]|] eqn:Hc; simpl;
  try destruct b; try destruct (n =? 0) eqn:Hn; simpl;
  try destruct (String.eqb text EmptyString) eqn:Htext; simpl;
  try destruct (JSON.parse text) as [v|] eqn:Hparse; try done;
  intros [= <-]; unfold Obj.assign; simpl;
  try (exists s; split; [done|]; rewrite Ht).

Lemma formatItem_get_id item r :
  NoDup (Obj.keys item) ->
  formatItem item = Ok r ->
  exists s, Obj.get item "id" = Some (JStr s) /\
            Obj.get r "id" = JStr <$> formatID s.
Proof. intros Hnd. formatItem_resolved item; by get_set. Qed.

Lemma formatItem_get_content item r :
  NoDup (Obj.keys item) ->
  formatItem item = Ok r ->
  Obj.get r "contentJSON"
  = match Obj.get item "contentJSON" with
    | Some (JStr text) =>
        if String.eqb text EmptyString then Some (JStr text) else JSON.parse text
    | other => other
    end.
Proof. intros Hnd. formatItem_resolved item; by get_set. Qed.

Lemma formatItem_get_other item r k :
  NoDup (Obj.keys item) ->
  formatItem item = Ok r ->
  k <> "id" -> k <> "contentJSON" -> Obj.get r k = Obj.get item k.
Proof. intros Hnd. formatItem_resolved item; intros Hk1 Hk2; by get_set. Qed.


(** X4.  What [formatItem] makes of a record: the [id] becomes its last
    piece, a [contentJSON] that is a non-empty string becomes the value it
    is the JSON text of, and every other property, and a [contentJSON] that
    is no string, stays as it is. *)
Theorem formatItem_changes_id_and_content item r :
  NoDup (Obj.keys item) ->
  formatItem item = Ok r ->
  (exists s, Obj.get item "id" = Some (JStr s) /\
             Obj.get r "id" = JStr <$> formatID s) /\
  Obj.get r "contentJSON"
  = match Obj.get item "contentJSON" with
    | Some (JStr text) =>
        if String.eqb text EmptyString then Some (JStr text) else JSON.parse text
    | other => other
    end /\
  (forall k, k <> "id" -> k <> "contentJSON" -> Obj.get r k = Obj.get item k).
Proof.
  intros Hnd Hr. split; [by apply formatItem_get_id|].
  split; [by apply formatItem_get_content|]. intros k. by apply formatItem_get_other.
Qed.

Example created_item_keys owner type tags name contentJSON counter :
  NoDup (Obj.keys (created_item owner type tags name contentJSON counter)).
Proof.
  unfold Obj.keys, created_item. simpl.
  apply (bool_decide_unpack _). vm_compute. exact I.
Qed.

Lemma formatItem_changes_id_and_content_witness :
  let item := created_item organization_1 "picture" None None picture_content 1 in
  let r := [ ("ownerID", JStr "organization-1"); ("id", JStr "1");
             ("type", JStr "picture"); ("tags", JArr []);
             ("name", JStr "Untitled"); ("contentJSON", picture_content) ] in
  NoDup (Obj.keys item) /\
  formatItem item = Ok r /\
  (exists s, Obj.get item "id" = Some (JStr s) /\
             Obj.get r "id" = JStr <$> formatID s) /\
  Obj.get r "contentJSON"
  = match Obj.get item "contentJSON" with
    | Some (JStr text) =>
        if String.eqb text EmptyString then Some (JStr text) else JSON.parse text
    | other => other
    end /\
  (forall k, k <> "id" -> k <> "contentJSON" -> Obj.get r k = Obj.get item k).
Proof.
  cbv zeta.
  assert (formatItem (created_item organization_1 "picture" None None picture_content 1)
          = Ok [ ("ownerID", JStr "organization-1"); ("id", JStr "1");
                 ("type", JStr "picture"); ("tags", JArr []);
                 ("name", JStr "Untitled"); ("contentJSON", picture_content) ]) as E
    by (vm_compute; reflexivity).
  split; [apply created_item_keys|]. split; [exact E|].
  exact (formatItem_changes_id_and_content _ _ (created_item_keys _ _ _ _ _ _) E).
Defined.

(** Text that begins with a character no JSON text begins with is refused. *)
Lemma parse_not_begun c text :
  begins_json c = false -> JSON.parse (String c text) = None.
Proof.
  intros H.
  destruct c as [[] [] [] [] [] [] [] []]; vm_compute in H; try discriminate H.
  all: reflexivity.
Qed.

(** X5.  How [formatItem] fails.  It throws a [TypeError] exactly on a
    record whose [id] is not a string.  Any other failure is a
    [SyntaxError], and comes of a record whose [id] is a string and whose
    [contentJSON] is a non-empty string that [JSON.stringify] wrote of no
    value.  And on a [contentJSON] that begins with a character that no JSON
    text begins with, a record with a string for [id] does fail so. *)
Theorem formatItem_failures item :
  (formatItem item = Fail TypeError
   <-> forall s, Obj.get item "id" <> Some (JStr s)) /\
  (forall e,
     formatItem item = Fail e -> e <> TypeError ->
     e = SyntaxError /\
     (exists s, Obj.get item "id" = Some (JStr s)) /\
     exists text,
       Obj.get item "contentJSON" = Some (JStr text) /\ text <> EmptyString /\
       forall v, json_wf v = true -> text <> JSON.stringify v) /\
  (forall s c text,
     Obj.get item "id" = Some (JStr s) ->
     Obj.get item "contentJSON" = Some (JStr (String c text)) ->
     begins_json c = false ->
     formatItem item = Fail SyntaxError).
Proof.
  unfold formatItem, formatted_id, parsed_content.
  destruct (Obj.get item "id") as [[| | |s| |]|] eqn:Hid.
  1-3, 5-7: split; [by split|]; split; [by intros e [= <-]|by intros s c text [=]].
  destruct (formatID_total s) as [t Ht]. rewrite Ht.
  destruct (Obj.get item "contentJSON") as [[|b|n|text|l|m]|] eqn:Hc; simpl.
  all: try destruct b; try destruct (n =? 0); simpl.
  all: try (split; [split; [done|]; intros H; by destruct (H s)|];
            split; [done|]; by intros s' c text' _ [=]).
  destruct (String.eqb text EmptyString) eqn:Htext; simpl.
  - apply String.eqb_eq in Htext as ->.
    split; [split; [done|]; intros H; by destruct (H s)|].
    split; [done|]. by intros s' c text' _ [=].
  - apply String.eqb_neq in Htext.
    destruct (JSON.parse text) as [v|] eqn:Hparse.
    + split; [split; [done|]; intros H; by destruct (H s)|].
      split; [done|]. intros s' c text' _ [= ->] Hbegin.
      rewrite parse_not_begun in Hparse; done.
    + split; [split; [done|]; intros H; by destruct (H s)|].
      split; [|done]. intros e [= <-] _. split; [done|]. split; [eauto|].
      exists text. split; [done|]. split; [done|].
      intros v Hwf ->. rewrite parse_stringify in Hparse; done.
Qed.

Lemma formatItem_failures_witness :
  let item := [("id", JStr "picture-1"); ("contentJSON", JStr "url=a.png")] in
  Obj.get item "id" = Some (JStr "picture-1") /\
  Obj.get item "contentJSON" = Some (JStr "url=a.png") /\
  begins_json "u" = false /\
  formatItem item = Fail SyntaxError.
Proof.
  cbv zeta. split; [reflexivity|]. split; [reflexivity|]. split; [reflexivity|].
  exact (proj2 (proj2 (formatItem_failures
                         [("id", JStr "picture-1"); ("contentJSON", JStr "url=a.png")]))
           "picture-1" "u"%char "rl=a.png" eq_refl eq_refl eq_refl).
Defined.

(** ** Reading the items of an owner *)

Lemma formatItems_Forall2 l r :
  formatItems l = Ok r <-> Forall2 (fun item o => formatItem item = Ok o) l r.
Proof.
  revert r. induction l as [|item l IH]; intros r; simpl.
  - split; [intros [= <-]; constructor|]. by intros ->%Forall2_nil_inv_l.
  - destruct (formatItem item) as [o|e] eqn:E.
    + destruct (formatItems l) as [r'|e'] eqn:E'.
      * split.
        -- intros [= <-]. constructor; [done|]. by apply IH.
        -- intros (o' & r'' & Ho & Hr & ->)%Forall2_cons_inv_l.
           apply IH in Hr. congruence.
      * split; [done|].
        intros (o' & r'' & Ho & Hr & ->)%Forall2_cons_inv_l.
        apply IH in Hr. done.
    + split; [done|].
      intros (o' & r'' & Ho & Hr & ->)%Forall2_cons_inv_l. congruence.
Qed.

Lemma formatItems_total l :
  Forall (fun item => exists o, formatItem item = Ok o) l ->
  exists r, formatItems l = Ok r.
Proof.
  induction 1 as [|item l [o Ho] _ [r Hr]]; simpl; [eauto|].
  rewrite Ho, Hr. eauto.
Qed.

Lemma formatItems_Permutation l1 l2 r1 :
  l1 ≡ₚ l2 -> formatItems l1 = Ok r1 ->
  exists r2, formatItems l2 = Ok r2 /\ r1 ≡ₚ r2.
Proof.
  intros Hperm Hr. apply formatItems_Forall2 in Hr.
  destruct (Permutation_Forall2 Hperm Hr) as (r2 & Hr2 & Hall).
  exists r2. split; [by apply formatItems_Forall2|done].
Qed.

Lemma filter_Permutation {A} (f : A -> bool) (l1 l2 : list A) :
  l1 ≡ₚ l2 -> List.filter f l1 ≡ₚ List.filter f l2.
Proof.
  induction 1 as [|x l1 l2 _ IH|x y l|l1 l2 l3 _ IH1 _ IH2]; simpl.
  - done.
  - destruct (f x); by rewrite IH.
  - destruct (f x), (f y); try done. apply perm_swap.
  - by etrans.
Qed.

(** The records of a query after one was written under a key that held
    none. *)
Lemma stored_items_insert ownerID type key item st st' :
  items st !! key = None ->
  items st' = <[key := item]> (items st) ->
  stored_items ownerID type st'
  ≡ₚ (if in_query ownerID type (key, item) then [item] else [])
     ++ stored_items ownerID type st.
Proof.
  intros Hfresh E. unfold stored_items. rewrite E.
  rewrite (filter_Permutation _ _ _ (map_to_list_insert _ _ item Hfresh)).
  simpl. by destruct (in_query ownerID type (key, item)).
Qed.

Lemma readAllItemsForOwner_run owner st :
  readAllItemsForOwner owner st
  = (formatItems (stored_items (uniqueIDForOwner owner) None st),
     log (CallQuery (uniqueIDForOwner owner) None) st).
Proof. reflexivity. Qed.

Lemma readAllItemsForType_run owner type st :
  readAllItemsForType owner type st
  = (formatItems (stored_items (uniqueIDForOwner owner) (Some type) st),
     log (CallQuery (uniqueIDForOwner owner) (Some type)) st).
Proof. reflexivity. Qed.

Lemma elem_of_stored_items ownerID type st key item :
  items st !! key = Some item -> in_query ownerID type (key, item) = true ->
  item ∈ stored_items ownerID type st.
Proof.
  intros Hitem Hq. unfold stored_items.
  apply (list_elem_of_fmap_2 snd _ (key, item)).
  apply list_elem_of_In, filter_In. split; [|done].
  apply list_elem_of_In. by apply elem_of_map_to_list.
Qed.

Lemma Forall2_elem_of_l {A B} (P : A -> B -> Prop) l r x :
  Forall2 P l r -> x ∈ l -> exists y, y ∈ r /\ P x y.
Proof.
  induction 1 as [|a b l r Hab _ IH]; intros Hx.
  - by apply elem_of_nil in Hx.
  - apply elem_of_cons in Hx as [->|Hx].
    + exists b. split; [left|done].
    + destruct (IH Hx) as (y & Hy & HP). exists y. split; [by right|done].
Qed.

(** X6.  One record that [formatItem] fails on makes the whole reading of
    its owner fail: [readAllItemsForOwner] rejects, after its query, and so
    does [readAllItemsForType] for the type of the record.  When the reading
    resolves, every record of the owner is in the list, formatted. *)
Theorem readAllItems_all_or_nothing owner st id item :
  items st !! (uniqueIDForOwner owner, id) = Some item ->
  (forall e,
     formatItem item = Fail e ->
     (exists e', readAllItemsForOwner owner st
                 = (Fail e', log (CallQuery (uniqueIDForOwner owner) None) st)) /\
     (forall type,
        Obj.get item "type" = Some (JStr type) ->
        exists e', readAllItemsForType owner type st
                   = (Fail e', log (CallQuery (uniqueIDForOwner owner) (Some type)) st))) /\
  (forall l st',
     readAllItemsForOwner owner st = (Ok l, st') ->
     exists r, formatItem item = Ok r /\ r ∈ l).
Proof.
  intros Hitem.
  assert (in_query (uniqueIDForOwner owner) None ((uniqueIDForOwner owner, id), item)
          = true) as Hq by (unfold in_query; simpl; by rewrite String.eqb_refl).
  pose proof (elem_of_stored_items _ _ _ _ _ Hitem Hq) as Hin.
  split.
  - intros e He. split.
    + rewrite readAllItemsForOwner_run.
      destruct (formatItems _) as [r|e'] eqn:E; [|eauto].
      apply formatItems_Forall2 in E.
      destruct (Forall2_elem_of_l _ _ _ _ E Hin) as (o & _ & Ho). congruence.
    + intros type Htype. rewrite readAllItemsForType_run.
      destruct (formatItems _) as [r|e'] eqn:E; [|eauto].
      apply formatItems_Forall2 in E.
      assert (item ∈ stored_items (uniqueIDForOwner owner) (Some type) st) as Hin'.
      { apply (elem_of_stored_items _ _ _ _ _ Hitem).
        unfold in_query. simpl. by rewrite Htype, !String.eqb_refl. }
      destruct (Forall2_elem_of_l _ _ _ _ E Hin') as (o & _ & Ho). congruence.
  - intros l st'. rewrite readAllItemsForOwner_run. intros [= E _].
    apply formatItems_Forall2 in E.
    destruct (Forall2_elem_of_l _ _ _ _ E Hin) as (o & Ho & Hf). eauto.
Qed.

Lemma readAllItems_all_or_nothing_witness :
  items broken_store !! (uniqueIDForOwner organization_1, "picture-1")
  = Some broken_item /\
  formatItem broken_item = Fail SyntaxError /\
  exists e', readAllItemsForOwner organization_1 broken_store
             = (Fail e', log (CallQuery (uniqueIDForOwner organization_1) None)
                           broken_store).
Proof.
  split; [reflexivity|]. split; [reflexivity|].
  exact (proj1 (proj1 (readAllItems_all_or_nothing organization_1 broken_store
                         "picture-1" broken_item eq_refl) SyntaxError eq_refl)).
Defined.

Lemma formatItem_created_read owner type tags name contentJSON counter :
  json_wf contentJSON = true ->
  formatItem (created_item owner type tags name contentJSON counter)
  = Ok (created_item_read owner type tags name contentJSON counter).
Proof. apply formatItem_created. Qed.

(** The list read after [createItem], for a query that takes the new
    record or leaves it. *)
Lemma formatItems_after_create ownerID query_type owner type tags name contentJSON st l :
  json_wf contentJSON = true ->
  items st !! item_key owner type (JNum (Z.of_N (next_counter type st))) = None ->
  formatItems (stored_items ownerID query_type st) = Ok l ->
  let st' := (createItem owner type tags name contentJSON st).2 in
  let item := created_item owner type tags name contentJSON (next_counter type st) in
  exists l',
    formatItems (stored_items ownerID query_type st') = Ok l' /\
    l' ≡ₚ (if in_query ownerID query_type
               (item_key owner type (JNum (Z.of_N (next_counter type st))), item)
           then [created_item_read owner type tags name contentJSON
                   (next_counter type st)]
           else []) ++ l.
Proof.
  intros Hwf Hfresh Hl st' item. subst st'. rewrite createItem_run. simpl.
  pose proof (stored_items_insert ownerID query_type _ item st
                (store_after_create owner type tags name contentJSON st)
                Hfresh eq_refl) as Hperm.
  fold item in Hperm. symmetry in Hperm.
  destruct (in_query _ _ _); simpl in Hperm.
  - assert (formatItems (item :: stored_items ownerID query_type st)
            = Ok (created_item_read owner type tags name contentJSON
                    (next_counter type st) :: l)) as E.
    { simpl. unfold item. rewrite formatItem_created_read by done. by rewrite Hl. }
    destruct (formatItems_Permutation _ _ _ Hperm E) as (l' & Hl' & HP).
    exists l'. split; [done|]. by symmetry.
  - destruct (formatItems_Permutation _ _ _ Hperm Hl) as (l' & Hl' & HP).
    exists l'. split; [done|]. by symmetry.
Qed.


(** X8.  After [createItem], under a key that the store did not hold,
    [readAllItemsForType] of the owner returns, for the type of the item,
    the items it returned before and the new one, and for another type the
    items it returned before. *)
Theorem readAllItemsForType_after_createItem owner type tags name contentJSON st :
  json_wf contentJSON = true ->
  items st !! item_key owner type (JNum (Z.of_N (next_counter type st))) = None ->
  let st' := (createItem owner type tags name contentJSON st).2 in
  (forall l,
     (readAllItemsForType owner type st).1 = Ok l ->
     exists l',
       (readAllItemsForType owner type st').1 = Ok l' /\
       l' ≡ₚ created_item_read owner type tags name contentJSON (next_counter type st)
             :: l) /\
  (forall type' l,
     type' <> type ->
     (readAllItemsForType owner type' st).1 = Ok l ->
     exists l', (readAllItemsForType owner type' st').1 = Ok l' /\ l' ≡ₚ l).
Proof.
  intros Hwf Hfresh st'. split.
  - intros l. rewrite !readAllItemsForType_run. simpl. intros Hl.
    destruct (formatItems_after_create (uniqueIDForOwner owner) (Some type)
                owner type tags name contentJSON st l Hwf Hfresh Hl)
      as (l' & Hl' & HP).
    exists l'. split; [done|].
    unfold in_query in HP. simpl in HP. by rewrite !String.eqb_refl in HP.
  - intros type' l Htype. rewrite !readAllItemsForType_run. simpl. intros Hl.
    destruct (formatItems_after_create (uniqueIDForOwner owner) (Some type')
                owner type tags name contentJSON st l Hwf Hfresh Hl)
      as (l' & Hl' & HP).
    exists l'. split; [done|].
    unfold in_query in HP. simpl in HP.
    assert (String.eqb type type' = false) as E by (apply String.eqb_neq; congruence).
    by rewrite String.eqb_refl, E in HP.
Qed.


Lemma readAllItemsForType_after_createItem_witness :
  json_wf picture_content = true /\
  items picture_store
    !! item_key organization_1 "picture" (JNum (Z.of_N (next_counter "picture" picture_store)))
  = None /\
  (readAllItemsForType organization_1 "picture" picture_store).1
  = Ok [created_item_read organization_1 "picture" None None picture_content 1] /\
  exists l',
    (readAllItemsForType organization_1 "picture"
       (createItem organization_1 "picture" None None picture_content picture_store).2).1
    = Ok l' /\
    l' ≡ₚ [ created_item_read organization_1 "picture" None None picture_content
              (next_counter "picture" picture_store);
            created_item_read organization_1 "picture" None None picture_content 1 ].
Proof.
  assert ((readAllItemsForType organization_1 "picture" picture_store).1
          = Ok [created_item_read organization_1 "picture" None None picture_content 1])
    as E by (vm_compute; reflexivity).
  split; [reflexivity|]. split; [vm_compute; reflexivity|]. split; [exact E|].
  exact (proj1 (readAllItemsForType_after_createItem organization_1 "picture"
                  None None picture_content picture_store eq_refl eq_refl) _ E).
Defined.

(** ** Updates, once more *)

Lemma keys_set_present (o : obj) k v :
  k ∈ Obj.keys o -> Obj.keys (Obj.set o k v) = Obj.keys o.
Proof.
  induction o as [|[k0 v0] o IH]; simpl; intros Hk.
  - by apply elem_of_nil in Hk.
  - destruct (String.eqb k0 k) eqn:E; simpl; [done|].
    apply elem_of_cons in Hk as [->|Hk]; [by rewrite String.eqb_refl in E|].
    f_equal. by apply IH.
Qed.

Lemma keys_set (o : obj) k v :
  Obj.keys (Obj.set o k v)
  = if bool_decide (k ∈ Obj.keys o) then Obj.keys o else Obj.keys o ++ [k].
Proof.
  case_bool_decide as Hk; [by apply keys_set_present|].
  rewrite set_fresh by done. unfold Obj.keys. by rewrite map_app.
Qed.

Lemma elem_of_keys_set (o : obj) k v k' :
  k' ∈ Obj.keys (Obj.set o k v) <-> k' = k \/ k' ∈ Obj.keys o.
Proof.
  rewrite keys_set. case_bool_decide as Hk.
  - split; [auto|]. by intros [->|].
  - rewrite elem_of_app, list_elem_of_singleton. tauto.
Qed.



Lemma elem_of_keys_assign (c o : obj) k :
  k ∈ Obj.keys (Obj.assign o c) <-> k ∈ Obj.keys o \/ k ∈ Obj.keys c.
Proof.
  unfold Obj.assign. revert o.
  induction c as [|[k1 v1] c IH]; intros o; simpl.
  - rewrite elem_of_nil. tauto.
  - rewrite IH, elem_of_keys_set, elem_of_cons. tauto.
Qed.

Lemma set_set (o : obj) k v v' : Obj.set (Obj.set o k v) k v' = Obj.set o k v'.
Proof.
  induction o as [|[k0 v0] o IH]; simpl.
  - by rewrite String.eqb_refl.
  - destruct (String.eqb k0 k) eqn:E; simpl; rewrite E; [done|]. by rewrite IH.
Qed.

(** Writing two properties, the second of which is there, in either
    order. *)
Lemma set_comm (o : obj) k v k' v' :
  k <> k' -> k' ∈ Obj.keys o ->
  Obj.set (Obj.set o k v) k' v' = Obj.set (Obj.set o k' v') k v.
Proof.
  intros Hne. induction o as [|[k0 v0] o IH]; simpl; intros Hk'.
  - by apply elem_of_nil in Hk'.
  - destruct (String.eqb k0 k) eqn:E1, (String.eqb k0 k') eqn:E2; simpl;
      rewrite ?E1, ?E2; try done.
    + apply String.eqb_eq in E1, E2. congruence.
    + f_equal. apply IH.
      apply elem_of_cons in Hk' as [->|]; [by rewrite String.eqb_refl in E2|done].
Qed.

Lemma assign_after_set (c o : obj) k v v' :
  (forall k1, k1 ∈ Obj.keys c -> k1 ∈ Obj.keys o) ->
  Obj.set (Obj.assign (Obj.set o k v) c) k v' = Obj.set (Obj.assign o c) k v'.
Proof.
  unfold Obj.assign. revert o v.
  induction c as [|[k1 v1] c IH]; intros o v Hc; simpl.
  - apply set_set.
  - destruct (decide (k1 = k)) as [->|Hne].
    + by rewrite set_set.
    + rewrite set_comm; [|done|apply Hc; left].
      apply IH. intros k2 Hk2. apply elem_of_keys_set. right. apply Hc. by right.
Qed.

Lemma assign_snoc (c o : obj) k v :
  Obj.assign o (c ++ [(k, v)]) = Obj.set (Obj.assign o c) k v.
Proof. unfold Obj.assign. by rewrite fold_left_app. Qed.

(** Assigning the same properties a second time changes nothing. *)
Lemma assign_idempotent (c o : obj) :
  Obj.assign (Obj.assign o c) c = Obj.assign o c.
Proof.
  induction c as [|[k v] c IH] using rev_ind; [done|].
  rewrite !assign_snoc, assign_after_set; [by rewrite IH|].
  intros k1 Hk1. apply elem_of_keys_assign. by right.
Qed.

(** X9.  An update is idempotent: [updateItemWithChanges] with the changeset
    it was just called with returns what it returned, and leaves the items
    as they were after the first call; so for [updateNameForItem] and
    [updateTagsForItem]. *)
Theorem updates_are_idempotent owner type id st :
  let twice (update : Promise obj) :=
    (update (update st).2).1 = (update st).1 /\
    items (update (update st).2).2 = items (update st).2 in
  (forall changes, twice (updateItemWithChanges owner type id changes)) /\
  (forall newName, twice (updateNameForItem owner type id newName)) /\
  (forall newTags, twice (updateTagsForItem owner type id newTags)).
Proof.
  assert (forall key sets,
            (updateItem key sets (updateItem key sets st).2).1
            = (updateItem key sets st).1 /\
            items (updateItem key sets (updateItem key sets st).2).2
            = items (updateItem key sets st).2) as H.
  { intros key sets. unfold updateItem.
    destruct (bool_decide (sets = []) || existsb is_key_attribute (Obj.keys sets));
      simpl; [done|].
    rewrite lookup_insert_eq. simpl. rewrite assign_idempotent.
    split; [done|]. by rewrite insert_insert_eq. }
  cbv zeta. split; [|split]; intros; apply H.
Qed.

(** ** Requests, one after the other *)

#[local] Arguments readItem : simpl never.
#[local] Arguments createItem : simpl never.
#[local] Arguments updateItemWithChanges : simpl never.
#[local] Arguments readAllItemsForOwner : simpl never.
#[local] Arguments readAllItemsForType : simpl never.



Lemma readItem_found owner type id st item r :
  items st !! item_key owner type id = Some item ->
  formatItem item = Ok r ->
  readItem owner type id st
  = (Ok (Some r), log (CallGetItem (item_key owner type id)) st).
Proof.
  intros Hitem Hr. unfold readItem, map_result, and_then, getItem.
  fold (item_key owner type id). by rewrite Hitem, Hr.
Qed.




(** A property that the schema of PATCH does not name is not in a payload
    that passes it. *)
Lemma patchValidator_get_unknown changes k :
  patchValidator (JObj changes) = true ->
  Joi.schema_of
    [ ("version", false, Joi.only_1); ("contentJSON", false, Joi.any_object);
      ("name", false, Joi.a_string); ("rawTags", false, Joi.a_string);
      ("tags", false, Joi.array_of_strings);
      ("previewDestination", false,
         Joi.object [ ("device", false, Joi.a_string);
                      ("framework", false, Joi.a_string) ]) ] k = None ->
  Obj.get changes k = None.
Proof.
  intros Hvalid Hk. destruct (Obj.get changes k) as [v|] eqn:E; [|done].
  destruct (joi_object_property _ _ _ _ Hvalid (get_elem_of _ _ _ E))
    as (check & Hcheck & _). congruence.
Qed.



(** What PATCH answers and leaves in the store. *)
Lemma serve_route_patch p body st :
  serve route_patch (incoming p body) st
  = match body with
    | Some (JObj changes) =>
        if patchValidator (JObj changes) then
          let key := item_key (params_owner p) (itemType p) (JStr (id p)) in
          match updateItem key changes st with
          | (Ok item, st') => (Ok (Response 200 (Some (JObj item)) None), st')
          | (Fail e, st') => (Ok (ErrorResponse e), st')
          end
        else (Ok (ErrorResponse ValidationError), st)
    | _ => (Ok (ErrorResponse ValidationError), st)
    end.
Proof.
  rewrite (serve_after_pre route_patch _ _ _ _ (run_pre_owner_type p _ st)).
  unfold route_patch. route_fields. unfold validate_payload. cbn [payload incoming].
  destruct body as [[| | | | |changes]|]; try done.
  destruct (patchValidator (JObj changes)); [|done].
  simpl. rewrite with_owner_type_run.
  unfold and_then, reply_promise, updateItemWithChanges, getUpdateExpression.
  fold (item_key (params_owner p) (itemType p) (JStr (id p))).
  by destruct (updateItem _ changes st) as [[item|e] st'].
Qed.

(** X12.  Whatever its payload, PATCH writes to no record but the one of
    its path, issues no ID, and leaves the [ownerID], the [id] and the
    [type] of that record as they are; a payload that fails the schema (one
    that names [id], [ownerID] or [type], say) changes nothing and makes no
    call to the store. *)
Theorem patch_keeps_identity p body st :
  let key := item_key (params_owner p) (itemType p) (JStr (id p)) in
  let patched := (serve route_patch (incoming p body) st).2 in
  counters patched = counters st /\
  (forall key', key' <> key -> items patched !! key' = items st !! key') /\
  (forall item,
     items st !! key = Some item ->
     exists item',
       items patched !! key = Some item' /\
       Obj.get item' "ownerID" = Obj.get item "ownerID" /\
       Obj.get item' "id" = Obj.get item "id" /\
       Obj.get item' "type" = Obj.get item "type") /\
  (forall changes k,
     body = Some (JObj changes) ->
     k = "id" \/ k = "ownerID" \/ k = "type" ->
     Obj.get changes k <> None ->
     patched = st).
Proof.
  intros key patched. subst patched. rewrite serve_route_patch. fold key.
  destruct body as [[| | | | |changes]|]; try (by repeat split; eauto).
  destruct (patchValidator (JObj changes)) eqn:Hvalid.
  2: { repeat split; eauto. }
  pose proof (patchValidator_get_unknown changes "id" Hvalid eq_refl) as Hid.
  pose proof (patchValidator_get_unknown changes "ownerID" Hvalid eq_refl) as Howner.
  pose proof (patchValidator_get_unknown changes "type" Hvalid eq_refl) as Htype.
  assert (forall changes' k,
            Some (JObj changes) = Some (JObj changes') ->
            k = "id" \/ k = "ownerID" \/ k = "type" ->
            Obj.get changes' k <> None -> False) as Hnever.
  { intros changes' k [= <-] [-> | [-> | ->]]; congruence. }
  unfold updateItem.
  destruct (bool_decide (changes = []) || existsb is_key_attribute (Obj.keys changes));
    simpl.
  - repeat split; eauto. intros changes' k E Hk Hc. by destruct (Hnever _ _ E Hk Hc).
  - split; [done|]. split; [intros key' Hkey'; by rewrite lookup_insert_ne|].
    split.
    + intros item Hitem. rewrite lookup_insert_eq, Hitem. simpl.
      eexists. split; [done|]. by rewrite !get_assign_miss.
    + intros changes' k E Hk Hc. by destruct (Hnever _ _ E Hk Hc).
Qed.

Lemma patch_keeps_identity_witness :
  items picture_store
    !! item_key (params_owner picture_1) (itemType picture_1) (JStr (id picture_1))
  = Some (created_item organization_1 "picture" None None picture_content 1) /\
  exists item',
    items (serve route_patch (incoming picture_1 (Some (JObj patch_payload)))
             picture_store).2
      !! item_key (params_owner picture_1) (itemType picture_1) (JStr (id picture_1))
    = Some item' /\
    Obj.get item' "ownerID"
    = Obj.get (created_item organization_1 "picture" None None picture_content 1)
        "ownerID" /\
    Obj.get item' "id"
    = Obj.get (created_item organization_1 "picture" None None picture_content 1) "id" /\
    Obj.get item' "type"
    = Obj.get (created_item organization_1 "picture" None None picture_content 1) "type".
Proof.
  assert (items picture_store
            !! item_key (params_owner picture_1) (itemType picture_1)
                 (JStr (id picture_1))
          = Some (created_item organization_1 "picture" None None picture_content 1))
    as Hitem by (vm_compute; reflexivity).
  split; [exact Hitem|].
  exact (proj1 (proj2 (proj2 (patch_keeps_identity picture_1
                                (Some (JObj patch_payload)) picture_store)))
           _ Hitem).
Defined.

Lemma readItem_store owner type id st :
  (readItem owner type id st).2 = log (CallGetItem (item_key owner type id)) st.
Proof.
  unfold readItem, map_result, and_then, getItem.
  by destruct (match items st !! _ with Some _ => _ | None => _ end).
Qed.

(** X13.  The GET routes only read: whatever the request, the items and the
    counters of the store are afterwards what they were, and at most one
    call was made to the store. *)
Theorem get_routes_only_read route p body st :
  route ∈ routes -> route_method route = GET ->
  let st' := (serve route (incoming p body) st).2 in
  items st' = items st /\ counters st' = counters st /\
  (calls st' = calls st \/ exists call, calls st' = call :: calls st).
Proof.
  unfold routes. rewrite !elem_of_cons, elem_of_nil.
  intros [->|[->|[->|[->|[->|[->|[->|[->|[->|[]]]]]]]]]] Hmethod; try done; cbv zeta.
  - auto.
  - rewrite (serve_after_pre route_items _ _ _ _ (run_pre_owner p body st)).
    unfold route_items. route_fields. cbn [run_handler].
    rewrite with_owner_run. unfold and_then, reply_promise.
    rewrite readAllItemsForOwner_run.
    destruct (formatItems _); simpl; eauto.
  - auto.
  - rewrite (serve_after_pre route_type _ _ _ _ (run_pre_owner_type p body st)).
    unfold route_type. route_fields. cbn [run_handler].
    rewrite with_owner_type_run. unfold and_then, reply_promise.
    rewrite readAllItemsForType_run.
    destruct (formatItems _); simpl; eauto.
  - auto.
  - rewrite (serve_after_pre route_item _ _ _ _ (run_pre_owner_type p body st)).
    unfold route_item. route_fields. simpl.
    rewrite with_owner_type_run. unfold and_then, catch.
    pose proof (readItem_store (params_owner p) (itemType p) (JStr (id p)) st) as H.
    destruct (readItem _ _ _ st) as [[[item|]|e] st1]; simpl in *; subst st1;
      simpl; eauto.
Qed.

Lemma get_routes_only_read_witness :
  route_items ∈ routes /\ route_method route_items = GET /\
  let st' := (serve route_items (incoming picture_1 None) picture_store).2 in
  items st' = items picture_store /\ counters st' = counters picture_store /\
  (calls st' = calls picture_store \/ exists call, calls st' = call :: calls picture_store).
Proof.
  assert (route_items ∈ routes) as H by (unfold routes; set_solver).
  split; [exact H|]. split; [reflexivity|].
  exact (get_routes_only_read route_items picture_1 None picture_store H eq_refl).
Defined.



Lemma with_owner_assigned p body f :
  with_owner
    (assign_pre (incoming p body) "owner"
       (Some (JObj [("type", JStr (ownerType p)); ("id", JStr (ownerID p))]))) f
  = f (params_owner p).
Proof. reflexivity. Qed.

(** X15.  [handlers.authorizedForOwner], run as a precondition after
    [handlers.owner]: the organization 1 passes; another organization is
    refused, with the status 401; and for an owner of another type the
    handler does not reply, so that the request stays unanswered.  In no
    case is the store called. *)
Theorem authorizedForOwner_after_owner name p body st :
  let steps :=
    [pre_owner_step; {| assign := name; method := handlers_authorizedForOwner |}] in
  (ownerType p = "organization" -> ownerID p = "1" ->
   exists req, run_pre steps (incoming p body) st = (Ok (inl req), st)) /\
  (ownerType p = "organization" -> ownerID p <> "1" ->
   run_pre steps (incoming p body) st
   = (Ok (inr (ErrorResponse
                 (Boom 401 ("Not allowed to access organization " +:+ ownerID p)))),
      st)) /\
  (ownerType p <> "organization" ->
   run_pre steps (incoming p body) st = (Ok (inr Pending), st)).
Proof.
  cbv zeta. simpl. unfold and_then. simpl. rewrite with_owner_assigned.
  unfold params_owner. simpl.
  split; [|split].
  - intros -> ->. simpl. eauto.
  - intros -> Hid. simpl. apply String.eqb_neq in Hid. by rewrite Hid.
  - intros Htype. apply String.eqb_neq in Htype. by rewrite Htype.
Qed.

Lemma authorizedForOwner_after_owner_witness :
  ownerType {| ownerType := "user"; ownerID := "7"; itemType := "picture";
               id := "1" |} <> "organization" /\
  run_pre [pre_owner_step;
           {| assign := "authorized"; method := handlers_authorizedForOwner |}]
    (incoming {| ownerType := "user"; ownerID := "7"; itemType := "picture";
                 id := "1" |} None) empty_store
  = (Ok (inr Pending), empty_store).
Proof.
  assert (ownerType {| ownerType := "user"; ownerID := "7"; itemType := "picture";
                       id := "1" |} <> "organization") as H by discriminate.
  split; [exact H|].
  exact (proj2 (proj2 (authorizedForOwner_after_owner "authorized" _ None empty_store)) H).
Defined.

(** ** The preview of screens *)

Lemma join_cons sep x y l : join sep (x :: y :: l) = x +:+ sep +:+ join sep (y :: l).
Proof. reflexivity. Qed.

Lemma join_cons_head sep c l :
  l <> [] -> join sep (cons_head c l) = String c (join sep l).
Proof. destruct l as [|h [|h' t]]; done. Qed.

Lemma split_blank_line_nonempty s : split_blank_line s <> [].
Proof.
  induction s as [|c s IH]; simpl; [done|].
  destruct s as [|c' s]; [done|].
  destruct (Ascii.eqb c newline && Ascii.eqb c' newline); [done|].
  by destruct (split_blank_line (String c' s)).
Qed.

(** Joining the pieces with what they were split at gives the text back. *)
Lemma join_R_split sep s : join (String sep EmptyString) (R_split sep s) = s.
Proof.
  induction s as [|c s IH]; simpl; [done|].
  destruct (Ascii.eqb c sep) eqn:E.
  - apply Ascii.eqb_eq in E as ->.
    pose proof (R_split_nonempty sep s).
    destruct (R_split sep s) as [|h t] eqn:Es; [done|].
    rewrite join_cons, append_nil, append_cons, append_nil. by rewrite IH.
  - pose proof (R_split_nonempty sep s).
    destruct (R_split sep s) as [|h t] eqn:Es; [done|].
    change (String c h :: t) with (cons_head c (h :: t)).
    rewrite join_cons_head by done. by rewrite IH.
Qed.

Lemma join_split_blank_line s :
  join (String newline (String newline EmptyString)) (split_blank_line s) = s.
Proof.
  enough (join (String newline (String newline EmptyString)) (split_blank_line s) = s
          /\ forall c, join (String newline (String newline EmptyString))
                         (split_blank_line (String c s)) = String c s) as [H _]
    by done.
  induction s as [|c' s [IH1 IH2]]; [done|].
  split; [apply IH2|]. intros c.
  change (split_blank_line (String c (String c' s)))
    with (if Ascii.eqb c newline && Ascii.eqb c' newline
          then EmptyString :: split_blank_line s
          else cons_head c (split_blank_line (String c' s))).
  destruct (Ascii.eqb c newline) eqn:E1, (Ascii.eqb c' newline) eqn:E2; simpl andb;
    cbv iota.
  - apply Ascii.eqb_eq in E1 as ->. apply Ascii.eqb_eq in E2 as ->.
    pose proof (split_blank_line_nonempty s).
    destruct (split_blank_line s) as [|h t] eqn:Es; [done|].
    rewrite join_cons, append_nil, !append_cons, append_nil. by rewrite IH1.
  - rewrite join_cons_head by apply split_blank_line_nonempty. by rewrite IH2.
  - rewrite join_cons_head by apply split_blank_line_nonempty. by rewrite IH2.
  - rewrite join_cons_head by apply split_blank_line_nonempty. by rewrite IH2.
Qed.

Lemma R_split_lines sep s : Forall (fun line => sep ∉ chars line) (R_split sep s).
Proof.
  induction s as [|c s IH]; simpl.
  - constructor; [apply not_elem_of_nil|constructor].
  - destruct (Ascii.eqb c sep) eqn:E.
    + constructor; [apply not_elem_of_nil|done].
    + apply Ascii.eqb_neq in E.
      destruct (R_split sep s) as [|h t]; simpl.
      * constructor; [|done]. simpl. rewrite not_elem_of_cons. split; [congruence|].
        apply not_elem_of_nil.
      * apply Forall_cons in IH as [Hh Ht]. constructor; [|done].
        simpl. rewrite not_elem_of_cons. split; [congruence|done].
Qed.

Lemma length_Array_map {A B} (f : A -> nat -> list A -> B) l :
  length (Array_map f l) = length l.
Proof. unfold Array_map. apply length_imap. Qed.

(** X16.  [parseScreenItem], of an item whose content has a string for
    [body], hands [parseElement] the lines of the body, section by section:
    no line has a line feed in it, no section is without a line, and the
    lines joined by line feeds, and the sections by blank lines, are the
    body again. *)
Theorem parseScreenItem_sections {Element}
    (parseElement : string -> nat -> list string -> Element) item content body :
  Obj.get item "contentJSON" = Some (JObj content) ->
  Obj.get content "body" = Some (JStr body) ->
  exists sections : list (list string),
    parseScreenItem parseElement item = Ok (map (Array_map parseElement) sections) /\
    join (String newline (String newline EmptyString))
      (map (join (String newline EmptyString)) sections) = body /\
    sections <> [] /\
    Forall (fun lines => lines <> [] /\
                         Forall (fun line => newline ∉ chars line) lines) sections.
Proof.
  intros Hcontent Hbody.
  exists (map (R_split newline) (split_blank_line body)).
  split; [|split; [|split]].
  - unfold parseScreenItem. rewrite Hcontent, Hbody. by rewrite map_map.
  - rewrite map_map. erewrite map_ext; [|intros; apply join_R_split].
    rewrite map_id. apply join_split_blank_line.
  - pose proof (split_blank_line_nonempty body). by destruct (split_blank_line body).
  - apply Forall_fmap, Forall_forall. intros section _. simpl.
    split; [apply R_split_nonempty|apply R_split_lines].
Qed.

Lemma parseScreenItem_sections_witness :
  let parseElement := fun (line : string) (_ : nat) (_ : list string) => line in
  let item := [("id", JStr "1"); ("contentJSON", screen_content)] in
  Obj.get item "contentJSON" = Some screen_content /\
  exists sections : list (list string),
    parseScreenItem parseElement item = Ok (map (Array_map parseElement) sections) /\
    join (String newline (String newline EmptyString))
      (map (join (String newline EmptyString)) sections)
    = String "a" (String newline (String "b"
        (String newline (String newline (String "c" EmptyString))))) /\
    sections <> [] /\
    Forall (fun lines => lines <> [] /\
                         Forall (fun line => newline ∉ chars line) lines) sections.
Proof.
  cbv zeta. split; [reflexivity|].
  exact (parseScreenItem_sections _ [("id", JStr "1"); ("contentJSON", screen_content)]
           _ _ eq_refl eq_refl).
Defined.

Example parseScreenItem_screen :
  parseScreenItem (fun line _ _ => line) [("contentJSON", screen_content)]
  = Ok [["a"; "b"]; ["c"]].
Proof. reflexivity. Qed.

(** X17.  Of a screen that [createItem] stored, whose content has a string
    for [body], [parseScreenItem] parses the record that [readItem] returns,
    and throws on the record that [updateNameForItem] returns, in which the
    content is the JSON text. *)
Theorem parseScreenItem_read_and_updated {Element}
    (parseElement : string -> nat -> list string -> Element)
    owner type tags name content body newName st :
  json_wf (JObj content) = true ->
  Obj.get content "body" = Some (JStr body) ->
  let created := createItem owner type tags name (JObj content) st in
  let id := JNum (Z.of_N (next_counter type st)) in
  (exists item sections,
     (readItem owner type id created.2).1 = Ok (Some item) /\
     parseScreenItem parseElement item = Ok sections) /\
  (exists item,
     (updateNameForItem owner type id newName created.2).1 = Ok item /\
     parseScreenItem parseElement item = Fail TypeError).
Proof.
  intros Hwf Hbody created id. subst created id. rewrite createItem_run. split.
  - eexists _, _. split.
    + erewrite readItem_found; [done|apply lookup_insert_eq|].
      by apply formatItem_created_read.
    + unfold parseScreenItem. simpl. by rewrite Hbody.
  - eexists. split.
    + unfold updateNameForItem. rewrite updateItem_run by done. done.
    + unfold updated_item.
      fold (item_key owner type (JNum (Z.of_N (next_counter type st)))).
      simpl. rewrite lookup_insert_eq. simpl.
      unfold parseScreenItem, Obj.assign. simpl.
      by destruct tags, name.
Qed.

(** ** [handlers.ensureOwnerExists] *)

Lemma readItem_none owner type id st :
  items st !! item_key owner type id = None ->
  readItem owner type id st = (Ok None, log (CallGetItem (item_key owner type id)) st).
Proof.
  intros Habsent. unfold readItem, map_result, and_then, getItem.
  fold (item_key owner type id). by rewrite Habsent.
Qed.

(** X18.  [handlers.ensureOwnerExists] looks, with one [getItem], for the
    item of the user that has the type and the id of the owner: it replies
    when [readItem] returns that item and refuses, with the status 401, when
    there is none.  Run after [handlers.owner] alone, as the preconditions
    of the table would have it, it throws, for want of a [user]. *)
Theorem ensureOwnerExists_reads_item_of_user :
  (forall req owner user st,
     pre_owner "owner" req = Ok owner ->
     pre_owner "user" req = Ok user ->
     let key := item_key user (owner_type owner) (JStr (owner_id owner)) in
     (items st !! key = None ->
      run_handler handlers_ensureOwnerExists req st
      = (Ok (ReplyError
               (Boom 401 ("Not authorized for item: " +:+ owner_type owner +:+ " "
                            +:+ owner_id owner))),
         log (CallGetItem key) st)) /\
     (forall item r,
        items st !! key = Some item -> formatItem item = Ok r ->
        run_handler handlers_ensureOwnerExists req st
        = (Ok (ReplyWith None), log (CallGetItem key) st))) /\
  (forall name p body st,
     run_pre [pre_owner_step;
              {| assign := name; method := handlers_ensureOwnerExists |}]
       (incoming p body) st
     = (Ok (inr (ErrorResponse TypeError)), st)).
Proof.
  split.
  - intros req owner user st Howner Huser key.
    unfold run_handler, with_owner. rewrite Howner, Huser.
    unfold reply_promise, and_then. split.
    + intros Habsent. by rewrite (readItem_none _ _ _ _ Habsent).
    + intros item r Hitem Hr. by rewrite (readItem_found _ _ _ _ _ _ Hitem Hr).
  - intros name p body st. reflexivity.
Qed.

Lemma ensureOwnerExists_reads_item_of_user_witness :
  let req := {| params := picture_1; payload := None;
                pre := [ ("owner", JObj [("type", JStr "picture"); ("id", JStr "1")]);
                         ("user", JObj [("type", JStr "organization");
                                        ("id", JStr "1")]) ] |} in
  let owner := {| owner_type := "picture"; owner_id := "1" |} in
  pre_owner "owner" req = Ok owner /\
  pre_owner "user" req = Ok organization_1 /\
  items empty_store !! item_key organization_1 "picture" (JStr "1") = None /\
  run_handler handlers_ensureOwnerExists req empty_store
  = (Ok (ReplyError (Boom 401 "Not authorized for item: picture 1")),
     log (CallGetItem (item_key organization_1 "picture" (JStr "1"))) empty_store).
Proof.
  cbv zeta. split; [reflexivity|]. split; [reflexivity|]. split; [reflexivity|].
  exact (proj1 (proj1 ensureOwnerExists_reads_item_of_user
                  {| params := picture_1; payload := None;
                     pre := [ ("owner", JObj [("type", JStr "picture");
                                              ("id", JStr "1")]);
                              ("user", JObj [("type", JStr "organization");
                                             ("id", JStr "1")]) ] |}
                  {| owner_type := "picture"; owner_id := "1" |}
                  organization_1 empty_store eq_refl eq_refl) eq_refl).
Defined.

Lemma parseScreenItem_read_and_updated_witness :
  let parseElement := fun (line : string) (_ : nat) (_ : list string) => line in
  let content := [("body", JStr "a")] in
  json_wf (JObj content) = true /\
  Obj.get content "body" = Some (JStr "a") /\
  let created :=
    createItem organization_1 "story-screen" None None (JObj content) empty_store in
  let id := JNum (Z.of_N (next_counter "story-screen" empty_store)) in
  (exists item sections,
     (readItem organization_1 "story-screen" id created.2).1 = Ok (Some item) /\
     parseScreenItem parseElement item = Ok sections) /\
  (exists item,
     (updateNameForItem organization_1 "story-screen" id (JStr "X") created.2).1
     = Ok item /\
     parseScreenItem parseElement item = Fail TypeError).
Proof.
  cbv zeta. split; [reflexivity|]. split; [reflexivity|].
  exact (parseScreenItem_read_and_updated (fun line _ _ => line)
           organization_1 "story-screen" None None [("body", JStr "a")] "a"
           (JStr "X") empty_store eq_refl eq_refl).
Defined.
